(** * Woodmont Industrial News Briefing: ingestion pipeline

    A shallow embedding of the feed-ingestion code and the properties
    its specification states about it:

    - [src/feeds/playwright-fallback.ts]: challenge detector, allowlist,
    rate limiter, feed cache, cookie store and the bypass session;
    - [src/feeds/fetcher-integration.ts]: the per-source circuit breaker
    maintained by [fetchAllRSSArticles];
    - the static build ([buildStaticRSS], [generateJSONFeed]) and the
    front-end helpers [transformArticle], [getUniqueSources] and
    [filterArticles];
    - [src/server/logging.ts]: the logger [log].

    JavaScript strings are modelled by [string], holding the text in
    UTF-8; [toLowerCase] folds the ASCII letters and leaves every other
    character alone, and the length of a text, its cuts and the order
    of texts are taken on its UTF-16 code units.  Time stamps
    (milliseconds since the epoch) and counters are integers in [Z].
    The three JSON documents under [.playwright-cache] are finite maps
    keyed by strings, read and written in full by each operation.  A
    document is what its loader returns, the empty map when the file is
    missing or unreadable; a write may be refused by the disk, and the
    code then goes on with the document as it was. *)

From Stdlib Require Import ZArith Ascii DecimalString.
From Stdlib Require String.
From stdpp Require Import base option list sorting gmap strings.

Local Open Scope Z_scope.

(** ** JavaScript string primitives *)

Module JsString.

(** [s.startsWith(p)] *)
Definition startsWith (s p : string) : bool := String.prefix p s.

(** [s.includes(sub)] *)
Fixpoint includes (s sub : string) : bool :=
  if String.prefix sub s then true
  else match s with
       | EmptyString => false
       | String _ rest => includes rest sub
       end.

Definition lower_ascii (c : ascii) : ascii :=
  let n := nat_of_ascii c in
  if ((65 <=? n)%nat && (n <=? 90)%nat)%bool then ascii_of_nat (n + 32) else c.

(** [s.toLowerCase()] *)
Fixpoint toLowerCase (s : string) : string :=
  match s with
  | EmptyString => EmptyString
  | String c rest => String (lower_ascii c) (toLowerCase rest)
  end.

Fixpoint skip (n : nat) (s : string) : string :=
  match n, s with
  | S n', String _ rest => skip n' rest
  | _, _ => s
  end.

(** [s.replace(/^www\./, '')] *)
Definition strip_www (s : string) : string :=
  if startsWith s "www." then skip 4 s else s.

(** Truthiness of a string value: only the empty string is falsy. *)
Definition nonempty (s : string) : bool :=
  match s with EmptyString => false | String _ _ => true end.

(** Truthiness of an optional string property. *)
Definition truthy (o : option string) : bool :=
  match o with Some s => nonempty s | None => false end.

(** [a || b] on optional string properties. *)
Definition or_else (a b : option string) : option string :=
  if truthy a then a else b.

(** [a || 'literal'] *)
Definition or_default (a : option string) (d : string) : string :=
  match a with
  | Some s => if nonempty s then s else d
  | None => d
  end.

(** [sub] occurs in [s]. *)
Definition contains (s sub : string) : Prop :=
  exists pre post, s = pre +:+ sub +:+ post.

(** The suffix of [s] starting at the first occurrence of [pat]. *)
Fixpoint fromFirst (s pat : string) : option string :=
  if String.prefix pat s then Some s
  else match s with
       | EmptyString => None
       | String _ rest => fromFirst rest pat
       end.

(** The prefix of [s] ending with the last occurrence of [pat]. *)
Fixpoint uptoLast (s pat : string) : option string :=
  match s with
  | EmptyString => if String.prefix pat s then Some pat else None
  | String c rest =>
      match uptoLast rest pat with
      | Some r => Some (String c r)
      | None => if String.prefix pat s then Some pat else None
      end
  end.

(** [s.match(/open[\s\S]*$/)?.[0]]: from the first [open] to the end
    of the input. *)
Definition matchToEnd (s open : string) : option string :=
  fromFirst s open.

(** [s.match(/open[\s\S]*close/)?.[0]]: leftmost [open], then
    greedily up to the last [close] after it. *)
Definition matchSpan (s open close : string) : option string :=
  match fromFirst s open with
  | Some t =>
      match uptoLast (skip (String.length open) t) close with
      | Some r => Some (open +:+ r)
      | None => None
      end
  | None => None
  end.

(** Template interpolation of an integer. *)
Definition of_Z (z : Z) : string := NilZero.string_of_int (Z.to_int z).

End JsString.

Import JsString.

(** ** Bypass subsystem ([playwright-fallback.ts]) *)

Module Playwright.

(** *** Challenge detector *)

Definition indicators : list string :=
  [ "just a moment"; "checking your browser"; "cf-browser-verification";
    "challenge-platform"; "cloudflare"; "cf_clearance"; "turnstile"; "ray id" ].

Definition hasIndicator (lower : string) : bool :=
  existsb (fun i => includes lower i) indicators.

Definition isChallengeHTML (lower : string) : bool :=
  includes lower "<!doctype" &&
  (includes lower "just a moment" ||
   includes lower "checking your browser" ||
   includes lower "challenge").

(** The body is challenge-shaped HTML, as a proposition. *)
Definition challengeShaped (lower : string) : Prop :=
  contains lower "<!doctype" /\
  (contains lower "just a moment" \/
   contains lower "checking your browser" \/
   contains lower "challenge").

Definition status_is (status : option Z) (code : Z) : bool :=
  match status with Some s => s =? code | None => false end.

Definition isCloudflareChallenge (body : string) (status : option Z) : bool :=
  if negb (nonempty body) then false
  else
    let lower := toLowerCase body in
    hasIndicator lower && (isChallengeHTML lower || status_is status 403).

(** *** Domain helpers and allowlist *)

Definition PLAYWRIGHT_ALLOWLIST : list string :=
  [ "connectcre.com"; "bizjournals.com"; "commercialsearch.com"; "traded.co" ].

Definition MAX_RUNS_PER_DOMAIN_PER_DAY : Z := 10.

Definition CACHE_TTL_MS : Z := 12 * 60 * 60 * 1000.

(** *** Persisted documents *)

Record Cookie := {
  cookie_name : string;
  cookie_value : string;
  cookie_domain : string;
  cookie_path : string;
  cookie_expires : Z;
  cookie_httpOnly : bool;
  cookie_secure : bool;
  cookie_sameSite : string
}.

(** An entry of [CookieStore]. *)
Record CookieEntry := { cookies : list Cookie; savedAt : Z }.

(** An entry of [FeedCache]. *)
Record CacheEntry := { content : string; fetchedAt : Z; expiresAt : Z }.

(** An entry of [RateLimitStore]; [date] is a [YYYY-MM-DD] string. *)
Record RateEntry := { date : string; count : Z }.

(** The three documents, [cookies.json], [feed-cache.json] and
    [rate-limits.json], as [loadCookies], [loadCache] and
    [loadRateLimits] return them: a file that is missing or cannot be
    read or parsed is the empty document. *)
Record Files := {
  cookieStore : gmap string CookieEntry;
  feedCache : gmap string CacheEntry;
  rateLimits : gmap string RateEntry
}.

Definition noFiles : Files :=
  {| cookieStore := ∅; feedCache := ∅; rateLimits := ∅ |}.

(** The files behind the three documents. *)
Inductive Document := COOKIES_FILE | CACHE_FILE | RATE_LIMIT_FILE.

Record OriginalResponse := { status : Z; body : string }.

Record PlaywrightFetchResult := {
  success : bool;
  result_content : option string;
  error : option string;
  fromCache : option bool;
  usedPlaywright : option bool
}.

(** *** The platform: clock, URL parser, disk and headless browser

    Everything the module obtains from Node and Playwright.  [World] is
    the state of the outside world (clock, network, disk, browser
    process); an operation of the browser either completes or throws,
    and in both cases the world may have moved on. *)

Inductive Step (W A : Type) : Type :=
  | Done (a : A) (w : W)
  | Threw (msg : string) (w : W).
Arguments Done {W A} a w.
Arguments Threw {W A} msg w.

Class Platform := {
  World : Type;
  (** [Date.now()] *)
  Date_now : World -> Z;
  (** [new Date(t).toISOString().split('T')[0]] *)
  isoDate : Z -> string;
  (** [new URL(u).hostname]; [None] when the constructor throws *)
  url_hostname : string -> option string;
  (** [new URL(u).origin] *)
  url_origin : string -> option string;
  (** [new URL(rel, base).href] *)
  url_href : string -> string -> option string;
  (** [ensureDataDir(); fs.writeFileSync(file, JSON.stringify(..))]:
      [true] when the write goes through, [false] when it throws, the
      document then being left as it was *)
  fs_writeFileSync : Document -> World -> bool;
  (** [chromium.launch] behind the [browserInstance] singleton *)
  browser_launch : World -> Step World unit;
  browser_newContext : World -> Step World unit;
  context_addCookies : list Cookie -> World -> Step World unit;
  context_newPage : World -> Step World unit;
  (** [page.goto(url, { waitUntil: 'networkidle', timeout })] *)
  page_goto : string -> Z -> World -> Step World unit;
  page_waitForTimeout : Z -> World -> Step World unit;
  page_content : World -> Step World string;
  (** [page.evaluate] of the [link[type=...]] query: the [href] found *)
  page_feedLink : World -> Step World (option string);
  context_cookies : World -> Step World (list Cookie);
  context_close : World -> Step World unit
}.

Section Bypass.

Context `{Platform}.

Definition getDomain (url : string) : string :=
  match url_hostname url with
  | Some hostname => strip_www hostname
  | None => ""
  end.

Definition isAllowlisted (url : string) : bool :=
  let domain := getDomain url in
  existsb (fun allowed => includes domain allowed) PLAYWRIGHT_ALLOWLIST.

Definition getTodayString (w : World) : string := isoDate (Date_now w).

(** **** System state and the monad of the asynchronous code *)

Record Sys := { world : World; files : Files }.

Inductive Outcome (A : Type) : Type :=
  | Returns (a : A) (s : Sys)
  | Throws (msg : string) (s : Sys).
Arguments Returns {A} a s.
Arguments Throws {A} msg s.

Definition M (A : Type) : Type := Sys -> Outcome A.

Definition throw {A} (msg : string) : M A := fun s => Throws msg s.

#[global] Instance M_ret : MRet M := fun A a s => Returns a s.

#[global] Instance M_bind : MBind M := fun A B k m s =>
  match m s with
  | Returns a s' => k a s'
  | Throws msg s' => Throws msg s'
  end.

(** [try { m } catch (e) { handler(e.message) }] *)
Definition try_catch {A} (m : M A) (handler : string -> M A) : M A :=
  fun s =>
    match m s with
    | Returns a s' => Returns a s'
    | Throws msg s' => handler msg s'
    end.

(** [try { m } finally { cleanup }] *)
Definition try_finally {A} (m : M A) (cleanup : M unit) : M A :=
  fun s =>
    match m s with
    | Returns a s' =>
        match cleanup s' with
        | Returns _ s'' => Returns a s''
        | Throws msg s'' => Throws msg s''
        end
    | Throws msg s' =>
        match cleanup s' with
        | Returns _ s'' => Throws msg s''
        | Throws msg' s'' => Throws msg' s''
        end
    end.

(** A platform operation, run on the world of the system. *)
Definition platform {A} (op : World -> Step World A) : M A :=
  fun s =>
    match op (world s) with
    | Done a w => Returns a {| world := w; files := files s |}
    | Threw msg w => Throws msg {| world := w; files := files s |}
    end.

Definition dateNow : M Z := fun s => Returns (Date_now (world s)) s.

(** [new URL(..)] throws a [TypeError] on an unparsable argument. *)
Definition parsed (o : option string) : M string :=
  match o with
  | Some v => mret v
  | None => throw "Invalid URL"
  end.

Definition loadCookies : M (gmap string CookieEntry) :=
  fun s => Returns (cookieStore (files s)) s.

(** The three [save] functions: an error of the write is caught and
    logged, and the document stays as it was. *)
Definition saveCookies (store : gmap string CookieEntry) : M unit :=
  fun s => Returns tt
    {| world := world s;
       files := if fs_writeFileSync COOKIES_FILE (world s)
                then {| cookieStore := store;
                        feedCache := feedCache (files s);
                        rateLimits := rateLimits (files s) |}
                else files s |}.

Definition saveCache (cache : gmap string CacheEntry) (s : Sys) : Sys :=
  {| world := world s;
     files := if fs_writeFileSync CACHE_FILE (world s)
              then {| cookieStore := cookieStore (files s);
                      feedCache := cache;
                      rateLimits := rateLimits (files s) |}
              else files s |}.

Definition saveRateLimits (limits : gmap string RateEntry) (s : Sys) : Sys :=
  {| world := world s;
     files := if fs_writeFileSync RATE_LIMIT_FILE (world s)
              then {| cookieStore := cookieStore (files s);
                      feedCache := feedCache (files s);
                      rateLimits := limits |}
              else files s |}.

(** **** Rate limiting *)

Definition checkRateLimit (domain : string) (s : Sys) : bool :=
  let limits := rateLimits (files s) in
  let today := getTodayString (world s) in
  match limits !! domain with
  | None => true
  | Some domainLimit =>
      if bool_decide (date domainLimit ≠ today) then true
      else count domainLimit <? MAX_RUNS_PER_DOMAIN_PER_DAY
  end.

Definition incrementRateLimit (domain : string) (s : Sys) : Sys :=
  let limits := rateLimits (files s) in
  let today := getTodayString (world s) in
  let limits' :=
    match limits !! domain with
    | Some domainLimit =>
        if bool_decide (date domainLimit ≠ today)
        then <[domain := {| date := today; count := 1 |}]> limits
        else <[domain := {| date := date domainLimit;
                            count := count domainLimit + 1 |}]> limits
    | None => <[domain := {| date := today; count := 1 |}]> limits
    end in
  saveRateLimits limits' s.

(** The pair [(remaining, limit)]. *)
Definition getRateLimitStatus (domain : string) (s : Sys) : Z * Z :=
  let limits := rateLimits (files s) in
  let today := getTodayString (world s) in
  let used :=
    match limits !! domain with
    | Some domainLimit =>
        if bool_decide (date domainLimit = today) then count domainLimit else 0
    | None => 0
    end in
  (MAX_RUNS_PER_DOMAIN_PER_DAY - used, MAX_RUNS_PER_DOMAIN_PER_DAY).

(** **** Caching *)

Definition getCachedContent (url : string) (s : Sys) : option string :=
  let cache := feedCache (files s) in
  match cache !! url with
  | Some entry =>
      if Date_now (world s) <? expiresAt entry then Some (content entry)
      else None
  | None => None
  end.

Definition setCachedContent (url content : string) (s : Sys) : Sys :=
  let cache := feedCache (files s) in
  let now := Date_now (world s) in
  (* delete every key whose entry has [expiresAt < now] *)
  let cache := filter (fun kv => ¬ (expiresAt kv.2 < now)) cache in
  let cache :=
    <[url := {| content := content;
                fetchedAt := now;
                expiresAt := now + CACHE_TTL_MS |}]> cache in
  saveCache cache s.

(** **** The browser session *)

(** [c.includes('<?xml') || c.includes('<rss') || c.includes('<feed')] *)
Definition looksLikeFeed (c : string) : bool :=
  includes c "<?xml" || includes c "<rss" || includes c "<feed".

(** One round of the loop over [alternateUrls]; a navigation that
    throws is swallowed and the next URL is tried. *)
Fixpoint tryAlternateUrls (alternateUrls : list string)
    (finalContent : string) : M string :=
  match alternateUrls with
  | [] => mret finalContent
  | altUrl :: rest =>
      attempt ← try_catch
        (_ ← platform (page_goto altUrl 15000);
         altContent ← platform page_content;
         mret (Some altContent))
        (fun _ => mret None);
      match attempt with
      | Some altContent =>
          if looksLikeFeed altContent then mret altContent
          else tryAlternateUrls rest finalContent
      | None => tryAlternateUrls rest finalContent
      end
  end.

(** The navigation inside the [try] block of [fetchWithPlaywright]:
    from [page.goto(url)] to the final content. *)
Definition navigate (url : string) : M string :=
  _ ← platform (page_goto url 60000);
  _ ← platform (page_waitForTimeout 3000);
  content ← platform page_content;
  _ ← (if isCloudflareChallenge content None
       then platform (page_waitForTimeout 10000)
       else mret tt);
  finalContent ← platform page_content;
  finalContent ←
    (if isCloudflareChallenge finalContent None
     then _ ← platform (page_waitForTimeout 15000); platform page_content
     else mret finalContent);
  if negb (includes finalContent "<?xml") &&
     negb (includes finalContent "<rss") &&
     negb (includes finalContent "<feed")
  then
    rssLink ← platform page_feedLink;
    finalContent ←
      (if truthy rssLink then
         let rssLink := default "" rssLink in
         rssUrl ← (if startsWith rssLink "http" then mret rssLink
                   else parsed (url_href rssLink url));
         _ ← platform (page_goto rssUrl 30000);
         _ ← platform (page_waitForTimeout 2000);
         platform page_content
       else mret finalContent);
    if negb (includes finalContent "<?xml") &&
       negb (includes finalContent "<rss")
    then
      origin ← parsed (url_origin url);
      tryAlternateUrls
        [ origin +:+ "/feed/rss/";
          origin +:+ "/rss.xml";
          url +:+ "?format=xml";
          url +:+ "&format=xml" ]
        finalContent
    else mret finalContent
  else mret finalContent.

(** The whole [try] block: navigation, then the cookies of the context
    are read and written to the cookie store under [domain]. *)
Definition sessionBody (url domain : string)
    (cookieStore : gmap string CookieEntry) : M (string * list Cookie) :=
  finalContent ← navigate url;
  cookies ← platform context_cookies;
  now ← dateNow;
  _ ← saveCookies (<[domain := {| cookies := cookies; savedAt := now |}]> cookieStore);
  mret (finalContent, cookies).

(** What precedes the [try] block: browser, stored cookies, context
    and page. *)
Definition openSession (domain : string) : M (gmap string CookieEntry) :=
  _ ← platform browser_launch;
  cookieStore ← loadCookies;
  let existingCookies :=
    match cookieStore !! domain with
    | Some entry => cookies entry
    | None => []
    end in
  _ ← platform browser_newContext;
  _ ← (if (0 <? length existingCookies)%nat
       then try_catch (platform (context_addCookies existingCookies))
                      (fun _ => mret tt)
       else mret tt);
  _ ← platform context_newPage;
  mret cookieStore.

Definition fetchWithPlaywright (url : string) : M (string * list Cookie) :=
  let domain := getDomain url in
  cookieStore ← openSession domain;
  try_finally (sessionBody url domain cookieStore) (platform context_close).

(** **** Main export *)

Definition rejected (message : string) : PlaywrightFetchResult :=
  {| success := false; result_content := None; error := Some message;
     fromCache := None; usedPlaywright := None |}.

Definition sessionFailed (message : string) : PlaywrightFetchResult :=
  {| success := false; result_content := None; error := Some message;
     fromCache := None; usedPlaywright := Some true |}.

Definition notAllowlistedMessage (domain : string) : string :=
  "Domain " +:+ domain +:+ " not in Playwright allowlist".

Definition notAChallengeMessage : string :=
  "Not a Cloudflare challenge - Playwright not needed".

Definition rateLimitedMessage (domain : string) (rateStatus : Z * Z) : string :=
  "Rate limit exceeded for " +:+ domain +:+ " (" +:+
  of_Z rateStatus.1 +:+ "/" +:+ of_Z rateStatus.2 +:+ " remaining today)".

Definition challengeUnsolvedMessage : string :=
  "Cloudflare challenge not solved - may need manual intervention".

Definition notAFeedMessage : string :=
  "Got HTML response instead of RSS - feed may not exist".

(** [xmlMatch?.[0] || rssMatch?.[0] || feedMatch?.[0] || content] *)
Definition extractXml (content : string) : string :=
  let xmlMatch := matchToEnd content "<?xml" in
  let rssMatch := matchSpan content "<rss" "</rss>" in
  let feedMatch := matchSpan content "<feed" "</feed>" in
  or_default (or_else (or_else xmlMatch rssMatch) feedMatch) content.

Definition cacheHit (cached : option string) : PlaywrightFetchResult :=
  {| success := true; result_content := cached; error := None;
     fromCache := Some true; usedPlaywright := Some false |}.

(** What [playwrightFetchRSS] makes of the outcome of
    [fetchWithPlaywright]: the code after the [await] and the [catch]
    clause. *)
Definition concludeSession (url : string)
    (outcome : Outcome (string * list Cookie)) : PlaywrightFetchResult * Sys :=
  match outcome with
  | Returns (content, _) s =>
      if looksLikeFeed content then
        let xmlContent := extractXml content in
        let s := setCachedContent url xmlContent s in
        ({| success := true; result_content := Some xmlContent;
            error := None; fromCache := Some false;
            usedPlaywright := Some true |}, s)
      else if isCloudflareChallenge content None then
        (sessionFailed challengeUnsolvedMessage, s)
      else
        (sessionFailed notAFeedMessage, s)
  | Throws message s =>
      (sessionFailed message, s)
  end.

(** The challenge confirmation: passed when no [originalResponse] is
    given, or when the one given is a challenge. *)
Definition confirmed (originalResponse : option OriginalResponse) : bool :=
  match originalResponse with
  | Some r => isCloudflareChallenge (body r) (Some (status r))
  | None => true
  end.

Definition playwrightFetchRSS (url : string)
    (originalResponse : option OriginalResponse) (s : Sys)
    : PlaywrightFetchResult * Sys :=
  let domain := getDomain url in
  (* Check allowlist *)
  if negb (isAllowlisted url) then
    (rejected (notAllowlistedMessage domain), s)
  (* Check if this is actually a Cloudflare challenge *)
  else if negb (confirmed originalResponse) then
    (rejected notAChallengeMessage, s)
  (* Check cache first *)
  else
    let cached := getCachedContent url s in
    if truthy cached then (cacheHit cached, s)
    else
      (* Check rate limit *)
      let rateStatus := getRateLimitStatus domain s in
      if negb (checkRateLimit domain s) then
        (rejected (rateLimitedMessage domain rateStatus), s)
      else
        (* Fetch with Playwright; the rate-limit unit is taken first *)
        let s := incrementRateLimit domain s in
        concludeSession url (fetchWithPlaywright url s).

(** **** Notions used to state the properties *)

Definition final {A} (o : Outcome A) : Sys :=
  match o with
  | Returns _ s => s
  | Throws _ s => s
  end.


(** A computation that leaves the three documents as it found them. *)
Definition keepsFiles {A} (m : M A) : Prop :=
  forall s, files (final (m s)) = files s.


(** Rate-limit units that [domain] has consumed on the day [today]. *)
Definition usedOn (today domain : string) (fs : Files) : Z :=
  match rateLimits fs !! domain with
  | Some domainLimit =>
      if bool_decide (date domainLimit = today) then count domainLimit else 0
  | None => 0
  end.





End Bypass.

Arguments Returns {_ _} a s.
Arguments Throws {_ _} msg s.

(** *** A scripted platform

    A deterministic stand-in for Node and Playwright on which the model
    can be run: the site answers a URL with a page or lets the
    navigation time out, in both cases after setting cookies.  Calendar
    days are rendered as their number since the epoch, and every write
    to the disk goes through. *)

Module Scripted.

Inductive Answer :=
  | Page (html : string) (setCookies : list Cookie)
  | TimesOut (setCookies : list Cookie).

(** The site is a table from URLs to answers; a URL that is not in the
    table gets an error page. *)
Record Browser := {
  clock : Z;
  site : list (string * Answer);
  shown : string;
  jar : list Cookie;
  visited : list string
}.

Fixpoint takeUntil (stop : ascii -> bool) (s : string) : string :=
  match s with
  | EmptyString => EmptyString
  | String c rest => if stop c then EmptyString else String c (takeUntil stop rest)
  end.

Definition isOneOf (cs : list ascii) (c : ascii) : bool :=
  existsb (fun d => bool_decide (c = d)) cs.

(** Scheme and authority of an absolute URL [scheme://authority/...]. *)
Definition scheme (u : string) : string := takeUntil (isOneOf [":"%char]) u.

Definition authority (u : string) : option string :=
  match fromFirst u "://" with
  | Some t =>
      let a := takeUntil (isOneOf ["/"; "?"; "#"]%char) (skip 3 t) in
      if nonempty a then Some a else None
  | None => None
  end.

Definition hostname (u : string) : option string :=
  a ← authority u;
  Some (toLowerCase (takeUntil (isOneOf [":"%char]) a)).

Definition origin (u : string) : option string :=
  a ← authority u;
  Some (scheme u +:+ "://" +:+ toLowerCase a).

Definition href (rel base : string) : option string :=
  o ← origin base;
  Some (if startsWith rel "/" then o +:+ rel else o +:+ "/" +:+ rel).

Definition dayStamp (t : Z) : string := of_Z (t `div` 86400000).

Fixpoint answer (table : list (string * Answer)) (u : string) : Answer :=
  match table with
  | [] => Page "<html>not found</html>" []
  | (u', a) :: rest => if String.eqb u u' then a else answer rest u
  end.

Definition goto (u : string) (timeout : Z) (w : Browser) : Step Browser unit :=
  match answer (site w) u with
  | Page html setCookies =>
      Done tt {| clock := clock w; site := site w; shown := html;
                 jar := jar w ++ setCookies; visited := visited w ++ [u] |}
  | TimesOut setCookies =>
      Threw ("Timeout " +:+ of_Z timeout +:+ "ms exceeded")
           {| clock := clock w + timeout; site := site w; shown := shown w;
              jar := jar w ++ setCookies; visited := visited w ++ [u] |}
  end.

Definition wait (ms : Z) (w : Browser) : Step Browser unit :=
  Done tt {| clock := clock w + ms; site := site w; shown := shown w;
             jar := jar w; visited := visited w |}.

Definition addCookies (cs : list Cookie) (w : Browser) : Step Browser unit :=
  Done tt {| clock := clock w; site := site w; shown := shown w;
             jar := cs ++ jar w; visited := visited w |}.

(** A fresh context: empty cookie jar, blank page. *)
Definition newContext (w : Browser) : Step Browser unit :=
  Done tt {| clock := clock w; site := site w; shown := "";
             jar := []; visited := visited w |}.

#[export] Instance scripted : Platform := {|
  World := Browser;
  Date_now := clock;
  isoDate := dayStamp;
  url_hostname := hostname;
  url_origin := origin;
  url_href := href;
  fs_writeFileSync := fun _ _ => true;
  browser_launch := fun w => Done tt w;
  browser_newContext := newContext;
  context_addCookies := addCookies;
  context_newPage := fun w => Done tt w;
  page_goto := goto;
  page_waitForTimeout := wait;
  page_content := fun w => Done (shown w) w;
  page_feedLink := fun w => Done None w;
  context_cookies := fun w => Done (jar w) w;
  context_close := fun w => Done tt w
|}.

End Scripted.

End Playwright.

(** ** Canonical article ([NormalizedItem]) *)

Record NormalizedItem := {
  id : string;
  title : string;
  link : string;
  pubDate : option string;
  fetchedAt : option string;
  description : string;
  source : string;
  category : option string
}.

Record FetchMeta := {
  meta_feed : string;
  fetchedRaw : Z;
  kept : Z;
  filteredOut : Z;
  durationMs : Z
}.

(** [FetchResult]; [result_status] is ['ok'] or ['error']. *)
Record FetchResult := {
  result_status : string;
  result_articles : option (list NormalizedItem);
  meta : FetchMeta;
  result_error : option string
}.

(** ** Fetch stage with circuit breaker ([fetcher-integration.ts]) *)

Module Fetcher.

Record CircuitBreakerState := {
  failureCount : Z;
  blockedUntil : Z;
  lastError : option string;
  last403Preview : option string
}.

Definition BLOCKED_COOLDOWN_MS : Z := 24 * 60 * 60 * 1000.

Definition MAX_FAILURES_BEFORE_BLOCK : Z := 3.

Record FeedConfig := {
  feed_url : string;
  feed_name : string;
  feed_region : string;
  enabled : option bool
}.

(** One element of what [processFeedsFullPipeline] resolves to;
    [error] carries [error.message]. *)
Record PipelineResult := {
  feed : FeedConfig;
  articles : option (list NormalizedItem);
  error : option string;
  rawCount : option Z
}.

Record FeedStat := {
  lastFetch : string;
  lastSuccess : option string;
  stat_lastError : option string;
  itemsFetched : Z
}.

(** The module-level maps: [circuitBreaker] (private to the module),
    and [itemStore] and [feedStats] of the storage module. *)
Record State := {
  circuitBreaker : gmap string CircuitBreakerState;
  itemStore : gmap string NormalizedItem;
  feedStats : gmap string FeedStat
}.

Definition initial : State :=
  {| circuitBreaker := ∅; itemStore := ∅; feedStats := ∅ |}.

Record BlockedFeed := {
  blocked_url : string;
  reason : string;
  blocked_until : Z;
  preview : option string
}.

(** [getBlockedFeeds], up to the order of [Map.forEach] (insertion
    order in the source, key order here). *)
Definition getBlockedFeeds (now : Z) (st : State) : list BlockedFeed :=
  omap (fun '(url, state) =>
          if now <? blockedUntil state
          then Some {| blocked_url := url;
                       reason := or_default (lastError state) "Unknown";
                       blocked_until := blockedUntil state;
                       preview := last403Preview state |}
          else None)
       (map_to_list (circuitBreaker st)).

(** [cb.failureCount = 0; cb.blockedUntil = 0] *)
Definition resetEntry (cb : CircuitBreakerState) : CircuitBreakerState :=
  {| failureCount := 0; blockedUntil := 0;
     lastError := lastError cb; last403Preview := last403Preview cb |}.

Section Run.

(** [new Date(t).toISOString()] *)
Variable toISOString : Z -> string.

(** The body of [for (const article of articles)]. *)
Definition storeArticle (now : Z) (pipelineResult : PipelineResult)
    (n : Z) (st : State) (article : NormalizedItem) : State :=
  let url := feed_url (feed pipelineResult) in
  {| itemStore := <[id article := article]> (itemStore st);
     (* Update circuit breaker on success *)
     circuitBreaker :=
       match circuitBreaker st !! url with
       | Some cb => <[url := resetEntry cb]> (circuitBreaker st)
       | None => circuitBreaker st
       end;
     feedStats :=
       <[url := {| lastFetch := toISOString now;
                   lastSuccess := Some (toISOString now);
                   stat_lastError := None;
                   itemsFetched := n |}]> (feedStats st) |}.

(** The body of [if (pipelineResult.error)]. *)
Definition recordFailure (now : Z) (pipelineResult : PipelineResult)
    (message : string) (st : State) : State :=
  let url := feed_url (feed pipelineResult) in
  let cb := default {| failureCount := 0; blockedUntil := 0;
                       lastError := None; last403Preview := None |}
                    (circuitBreaker st !! url) in
  let count := failureCount cb + 1 in
  let cb := {| failureCount := count;
               blockedUntil :=
                 if MAX_FAILURES_BEFORE_BLOCK <=? count
                 then now + BLOCKED_COOLDOWN_MS
                 else blockedUntil cb;
               lastError := Some message;
               last403Preview := last403Preview cb |} in
  {| circuitBreaker := <[url := cb]> (circuitBreaker st);
     itemStore := itemStore st;
     feedStats :=
       <[url := {| lastFetch := toISOString now;
                   lastSuccess := None;
                   stat_lastError := Some message;
                   itemsFetched := 0 |}]> (feedStats st) |}.

(** One iteration of [for (const pipelineResult of pipelineResults)]:
    the new state and the [FetchResult] pushed. *)
Definition handleResult (startTime now : Z) (st : State)
    (pipelineResult : PipelineResult) : State * FetchResult :=
  let feedName := feed_name (feed pipelineResult) in
  let articles := default [] (articles pipelineResult) in
  let n := Z.of_nat (length articles) in
  let st := foldl (storeArticle now pipelineResult n) st articles in
  let st := match error pipelineResult with
            | Some message => recordFailure now pipelineResult message st
            | None => st
            end in
  let raw := default 0 (rawCount pipelineResult) in
  (st,
   {| result_status := match error pipelineResult with
                        | Some _ => "error"
                        | None => "ok"
                        end;
      result_articles := Some articles;
      meta := {| meta_feed := feedName;
                 fetchedRaw := raw;
                 kept := n;
                 filteredOut := raw - n;
                 durationMs := now - startTime |};
      result_error := error pipelineResult |}).

Definition handleResults (startTime now : Z) (st : State)
    (pipelineResults : list PipelineResult) : State * list FetchResult :=
  foldl (fun acc pipelineResult =>
           let '(st', result) := handleResult startTime now acc.1 pipelineResult in
           (st', acc.2 ++ [result]))
        (st, []) pipelineResults.

(** [RSS_FEEDS.filter(f => f.enabled !== false)]: the feeds handed
    to the pipeline. *)
Definition enabledFeeds (RSS_FEEDS : list FeedConfig) : list FeedConfig :=
  filter (fun f => enabled f ≠ Some false) RSS_FEEDS.

(** [fetchAllRSSArticles], up to the bookkeeping after the loop
    ([archiveOldArticles] and [lastFetchInfo], neither of which
    touches the circuit breaker).  [processFeedsFullPipeline] stands
    for the pipeline of [pipeline.ts], which fetches the feeds it is
    given and resolves to one result per feed. *)
Definition fetchAllRSSArticles
    (processFeedsFullPipeline : list FeedConfig -> list PipelineResult)
    (RSS_FEEDS : list FeedConfig) (manualArticles : list NormalizedItem)
    (startTime now : Z) (st : State) : State * list FetchResult :=
  let pipelineResults := processFeedsFullPipeline (enabledFeeds RSS_FEEDS) in
  let '(st, results) := handleResults startTime now st pipelineResults in
  let results :=
    if (0 <? length manualArticles)%nat then
      let m := Z.of_nat (length manualArticles) in
      {| result_status := "ok";
         result_articles := Some manualArticles;
         meta := {| meta_feed := "Manual Articles"; fetchedRaw := m;
                    kept := m; filteredOut := 0; durationMs := 0 |};
         result_error := None |} :: results
    else results in
  (st, results).

End Run.

End Fetcher.


(** ** Source fetch stage: what becomes of a response *)

Module FetchStage.

Import Playwright Fetcher.

(** What the direct retrieval of a feed yields. *)
Inductive Retrieval :=
  | Response (status : Z) (body : string)
  | NetworkError (message : string).

(** What the stage does next: it fails fast without network I/O, hands
    the response to the bypass session runner, hands the body to the
    parser, or records a failure of the source. *)
Inductive Route :=
  | CircuitOpen
  | Bypass (originalResponse : OriginalResponse)
  | Parse (body : string)
  | FetchFailed.

(** [blockedUntil > now] *)
Definition blocked (now : Z) (breaker : option CircuitBreakerState) : bool :=
  match breaker with
  | Some cb => now <? blockedUntil cb
  | None => false
  end.

Section Stage.

Context `{Platform}.

(** Modelled from the spec: the source fetch stage, whose code
    ([pipeline.ts], [fetcher.ts]) is not under [src/].  Section 4.1:
    if the breaker of the source is blocked, fail fast with
    [CircuitOpen] and attempt no network I/O; otherwise issue the
    retrieval; if the response indicates an anti-bot challenge (per
    the challenge detector) and the domain of the source is
    allowlisted for the bypass, delegate to the bypass session runner
    instead of failing; a network error and a non-2xx response that is
    not recognised as a challenge are failures. *)
Definition route (now : Z) (breaker : option CircuitBreakerState)
    (url : string) (retrieval : Retrieval) : Route :=
  if blocked now breaker then CircuitOpen
  else
    match retrieval with
    | NetworkError _ => FetchFailed
    | Response status body =>
        if isCloudflareChallenge body (Some status) && isAllowlisted url
        then Bypass {| status := status; body := body |}
        else if (200 <=? status) && (status <? 300) then Parse body
        else FetchFailed
    end.

End Stage.

(** Modelled from the spec: what the stage records in the breaker of
    the source when it has decided what to do with the response, the
    code being that of the same missing files.  Section 4.1: on failure
    (network error, parse error, non-2xx not recognised as a challenge)
    increment [failureCount].  A response handed to the bypass or to
    the parser records nothing at this point, and neither does the
    attempt that fails fast. *)
Definition failuresAfter (failureCount : Z) (r : Route) : Z :=
  match r with
  | FetchFailed => failureCount + 1
  | CircuitOpen | Bypass _ | Parse _ => failureCount
  end.

End FetchStage.

(** ** Static build: deduplication against the published feed *)

Module StaticBuild.

Section Build.

(** [shouldRejectUrl] and [isAllowedLink] of the fetcher module. *)
Variable shouldRejectUrl : string -> bool.
Variable isAllowedLink : string -> bool.

(** [new Set(existingArticles.map(a => a.id))] *)
Definition existingGuids (existingArticles : list NormalizedItem) : gset string :=
  list_to_set (map id existingArticles).

(** The items of every result with [status === 'ok'] and an article
    list, in order. *)
Definition allItems (results : list FetchResult) : list NormalizedItem :=
  concat (omap (fun result =>
                  if bool_decide (result_status result = "ok")
                  then result_articles result
                  else None)
               results).

(** The light filter on URL validity. *)
Definition lightFilter (item : NormalizedItem) : bool :=
  if negb (nonempty (link item)) || negb (nonempty (title item)) then false
  else if shouldRejectUrl (link item) then false
  else isAllowedLink (link item).

Definition filteredNewItems (results : list FetchResult) : list NormalizedItem :=
  List.filter lightFilter (allItems results).

(** [filteredNewItems.filter(item => !existingGuids.has(item.id))] *)
Definition newItems (existingArticles filtered : list NormalizedItem)
    : list NormalizedItem :=
  List.filter (fun item => negb (bool_decide (id item ∈ existingGuids existingArticles)))
              filtered.

(** [[...newItems, ...existingArticles]] *)
Definition mergedArticles (existingArticles filtered : list NormalizedItem)
    : list NormalizedItem :=
  newItems existingArticles filtered ++ existingArticles.

(** The articles of a list that carry a given identifier. *)
Definition withId (k : string) (l : list NormalizedItem) : list NormalizedItem :=
  List.filter (fun a => bool_decide (id a = k)) l.

(** Steps 1 to 3 of [buildStaticRSS]; the 30-day cleanup, the sort and
    the cap at 150 that follow work on the merged list. *)
Definition buildMerged (existingArticles : list NormalizedItem)
    (results : list FetchResult) : list NormalizedItem :=
  mergedArticles existingArticles (filteredNewItems results).

End Build.

End StaticBuild.

(** ** Front-end normalisation ([transformArticle]) *)

Module Utils.

(** [item.author] is a string or an object with an optional [name]. *)
Inductive Author :=
  | AuthorString (s : string)
  | AuthorObject (name : option string).

(** The properties of a feed item that [transformArticle] reads; every
    other property is carried over unchanged by the spread. *)
Record Item := {
  id : option string;
  url : option string;
  link : option string;
  date_published : option string;
  pubDate : option string;
  content_text : option string;
  content_html : option string;
  description : option string;
  source : option string;
  publisher : option string;
  author : option Author;
  tags : option (list string);
  title : option string
}.

(** The object returned: the spread item and the properties that
    override it. *)
Record Article := {
  spread : Item;
  out_link : string;
  out_pubDate : string;
  out_description : string;
  out_source : string;
  out_author : option string;
  out_category : string;
  out_id : string
}.

(** What the function draws from its environment:
    [new Date().toISOString()] and [Math.random().toString()]. *)
Record Env := { nowISO : string; random : string }.

Definition authorName (item : Item) : string :=
  match author item with
  | Some (AuthorString s) => s
  | Some (AuthorObject name) => or_default name ""
  | None => ""
  end.

Definition categoryOf (item : Item) : string :=
  let firstTag := or_default (tags item ≫= head) "" in
  let tagLower := toLowerCase firstTag in
  if includes tagLower "transaction" then "transaction"
  else if includes tagLower "availab" then "availabilities"
  else if includes tagLower "people" then "people"
  else "relevant".

Definition transformArticle (env : Env) (item : Item) : Article :=
  let authorName := authorName item in
  let category := categoryOf item in
  {| spread := item;
     out_link := or_default (or_else (url item) (link item)) "";
     out_pubDate :=
       or_default (or_else (date_published item) (pubDate item)) (nowISO env);
     out_description :=
       or_default (or_else (or_else (content_text item) (content_html item))
                           (description item)) "";
     out_source :=
       or_default (or_else (or_else (source item) (publisher item))
                           (Some authorName)) "Unknown";
     out_author := if nonempty authorName then Some authorName else None;
     out_category := category;
     out_id := or_default (or_else (id item) (link item)) (random env) |}.

End Utils.


(** ** Monitoring of the bypass subsystem ([getPlaywrightStats]) *)

Module PlaywrightStats.

Import Playwright.

Record DomainStats := { used : Z; remaining : Z }.

(** The object returned by [getPlaywrightStats]: [rateLimits] is keyed
    by the allowlisted domains, [cookieDomains] are the keys of the
    cookie store. *)
Record Stats := {
  allowlist : list string;
  stats_rateLimits : gmap string DomainStats;
  cacheSize : nat;
  cookieDomains : gset string
}.

Section Stats.

Context `{Platform}.

(** The body of [for (const domain of PLAYWRIGHT_ALLOWLIST)]. *)
Definition domainStats (today : string) (limits : gmap string RateEntry)
    (domain : string) : DomainStats :=
  let used :=
    match limits !! domain with
    | Some domainLimit =>
        if bool_decide (date domainLimit = today) then count domainLimit else 0
    | None => 0
    end in
  {| used := used; remaining := MAX_RUNS_PER_DOMAIN_PER_DAY - used |}.

Definition getPlaywrightStats (s : Sys) : Stats :=
  let limits := rateLimits (files s) in
  let cache := feedCache (files s) in
  let cookies := cookieStore (files s) in
  let today := getTodayString (world s) in
  {| allowlist := PLAYWRIGHT_ALLOWLIST;
     stats_rateLimits :=
       foldl (fun rateLimits domain =>
                <[domain := domainStats today limits domain]> rateLimits)
             ∅ PLAYWRIGHT_ALLOWLIST;
     cacheSize := size cache;
     cookieDomains := dom cookies |}.

End Stats.

End PlaywrightStats.

(** ** Successive runs of the fetch stage for one feed *)

Module FetcherRuns.

Import Fetcher.

Section Runs.

Variable toISOString : Z -> string.

(** The breaker, item store and statistics after a series of runs,
    given as the time of each run and what the pipeline returned for
    the feed in it. *)
Definition handleRuns (runs : list (Z * PipelineResult)) (st : State) : State :=
  foldl (fun st run => (handleResult toISOString run.1 run.1 st run.2).1)
        st runs.

(** A pipeline result for [url] that reports an error and no article. *)
Definition failedFor (url : string) (pipelineResult : PipelineResult) : Prop :=
  feed_url (feed pipelineResult) = url /\
  is_Some (error pipelineResult) /\
  default [] (articles pipelineResult) = [].

End Runs.

End FetcherRuns.

(** ** JavaScript strings as sequences of UTF-16 code units

    [s.length], [s.substring] and the order of [Array.prototype.sort]
    count and compare the 16-bit code units of a string.  The text is
    held here in UTF-8: a character takes one to four bytes, those of
    four bytes being the characters that take two code units (a
    surrogate pair); a surrogate left alone by a cut is held in the
    three-byte form of its code. *)

Module JsUtf16.

Definition byte (c : ascii) : N := N_of_ascii c.

(** A byte [10xxxxxx], which continues a character. *)
Definition isContinuation (c : ascii) : bool :=
  (128 <=? byte c)%N && (byte c <? 192)%N.

(** The six payload bits of the [i]-th of the continuation bytes that
    [s] starts with; [0] when there are fewer. *)
Fixpoint continuation (i : nat) (s : string) {struct s} : N :=
  match s with
  | EmptyString => 0%N
  | String c rest =>
      if isContinuation c then
        match i with
        | O => (byte c mod 64)%N
        | S i' => continuation i' rest
        end
      else 0%N
  end.

(** The code point, less [0x10000], of the character that starts with
    the four-byte lead [c] and goes on in [rest]. *)
Definition astral (c : ascii) (rest : string) : N :=
  (byte c mod 8 * 262144 + continuation 0 rest * 4096 +
   continuation 1 rest * 64 + continuation 2 rest - 65536)%N.

(** The code units of a text. *)
Fixpoint codeUnits (s : string) : list N :=
  match s with
  | EmptyString => []
  | String c rest =>
      let b := byte c in
      if (b <? 128)%N then b :: codeUnits rest
      else if (b <? 192)%N then codeUnits rest
      else if (b <? 224)%N then
        (b mod 32 * 64 + continuation 0 rest)%N :: codeUnits rest
      else if (b <? 240)%N then
        (b mod 16 * 4096 + continuation 0 rest * 64 + continuation 1 rest)%N
          :: codeUnits rest
      else
        let v := astral c rest in
        (55296 + v / 1024)%N :: (56320 + v mod 1024)%N :: codeUnits rest
  end.

(** [s.length] *)
Definition length (s : string) : nat := List.length (codeUnits s).

(** The number of code units of the character that the byte starts. *)
Definition units (c : ascii) : nat :=
  let b := byte c in
  if (b <? 128)%N then 1
  else if (b <? 192)%N then 0
  else if (b <? 240)%N then 1
  else 2.

(** The high surrogate of the character that starts with the four-byte
    lead [c], alone. *)
Definition highSurrogate (c : ascii) (rest : string) : string :=
  let w := (astral c rest / 1024)%N in
  String (ascii_of_N 237)
    (String (ascii_of_N (160 + w / 64))
       (String (ascii_of_N (128 + w mod 64)) EmptyString)).

(** [s.substring(0, n)]: the first [n] code units, or all of them when
    there are fewer. *)
Fixpoint substring (n : nat) (s : string) : string :=
  match s with
  | EmptyString => EmptyString
  | String c rest =>
      match units c with
      | O => String c (substring n rest)
      | S O =>
          match n with
          | O => EmptyString
          | S n' => String c (substring n' rest)
          end
      | S (S _) =>
          match n with
          | O => EmptyString
          | S O => highSurrogate c rest
          | S (S n') => String c (substring n' rest)
          end
      end
  end.

(** The order of two sequences of code units: the first place where
    they differ decides, and a proper prefix comes first. *)
Fixpoint lexLe (a b : list N) : bool :=
  match a, b with
  | [], _ => true
  | _ :: _, [] => false
  | x :: a', y :: b' =>
      if (x <? y)%N then true
      else if (y <? x)%N then false
      else lexLe a' b'
  end.

(** [a <= b] on strings. *)
Definition le (a b : string) : bool := lexLe (codeUnits a) (codeUnits b).

End JsUtf16.

(** ** JSON feed ([generateJSONFeed]) and its reader *)

Module JsonFeed.

(** A [NormalizedItem] as [generateJSONFeed] reads it: every property
    may be missing. *)
Record Entry := {
  item_id : option string;
  item_title : option string;
  item_link : option string;
  item_pubDate : option string;
  item_fetchedAt : option string;
  item_description : option string;
  item_source : option string;
  item_category : option string;
  item_author : option Utils.Author;
  item_regions : option (list string);
  item_image : option string;
  item_imageUrl : option string;
  item_thumbnailUrl : option string
}.

(** An element of [items] in the JSON feed; [author_name] is
    [author.name]. *)
Record JsonItem := {
  id : option string;
  url : string;
  title : string;
  content_html : string;
  content_text : string;
  summary : string;
  date_published : string;
  date_modified : string;
  image : option string;
  author_name : string;
  tags : list string
}.

(** [categoryLabels[category]], for the categories the classifier
    assigns. *)
Definition categoryLabels (category : string) : option string :=
  if String.eqb category "relevant" then
    Some "RELEVANT ARTICLES — Macro Trends & Industrial Real Estate News"
  else if String.eqb category "transaction" then
    Some "TRANSACTIONS — Notable Sales/Leases (≥100K SF or ≥$25M)"
  else if String.eqb category "availabilities" then
    Some "AVAILABILITIES — New Industrial Properties for Sale/Lease"
  else if String.eqb category "people" then
    Some "PEOPLE NEWS — Personnel Moves in Industrial Brokerage/Development"
  else None.

(** The author name of the feed item: the article's author when it is
    a non-empty string, else its source, else ['Unknown']. *)
Definition feedAuthorName (item : Entry) : string :=
  let authorName :=
    match item_author item with
    | Some (Utils.AuthorString s) => s
    | Some (Utils.AuthorObject _) => ""
    | None => ""
    end in
  if negb (nonempty authorName) then or_default (item_source item) "Unknown"
  else authorName.

(** [description ? description.substring(0, 200) +
    (description.length > 200 ? '...' : '') : ''] *)
Definition summaryOf (description : string) : string :=
  if nonempty description then
    JsUtf16.substring 200 description +:+
    (if (200 <? JsUtf16.length description)%nat then "..." else "")
  else "".

(** The callback of [items.map]; [nowISO] is [new Date().toISOString()]. *)
Definition jsonItem (nowISO : string) (item : Entry) : JsonItem :=
  let category := or_default (item_category item) "relevant" in
  let imageUrl :=
    or_else (or_else (item_image item) (item_imageUrl item))
            (item_thumbnailUrl item) in
  let description := or_default (item_description item) "" in
  {| id := item_id item;
     url := or_default (item_link item) "";
     title := or_default (item_title item) "Untitled";
     content_html := description;
     content_text := description;
     summary := summaryOf description;
     date_published := or_default (item_pubDate item) nowISO;
     date_modified := or_default (item_fetchedAt item) nowISO;
     image := if truthy imageUrl then imageUrl else None;
     author_name := feedAuthorName item;
     tags := or_default (categoryLabels category) category
             :: default [] (item_regions item) |}.

(** The [items] of [generateJSONFeed]. *)
Definition generateJSONFeed (nowISO : string) (items : list Entry) : list JsonItem :=
  jsonItem nowISO <$> items.

(** A feed item as the front end gets it back from [feed.json]. *)
Definition readItem (j : JsonItem) : Utils.Item :=
  {| Utils.id := id j;
     Utils.url := Some (url j);
     Utils.link := None;
     Utils.date_published := Some (date_published j);
     Utils.pubDate := None;
     Utils.content_text := Some (content_text j);
     Utils.content_html := Some (content_html j);
     Utils.description := None;
     Utils.source := None;
     Utils.publisher := None;
     Utils.author := Some (Utils.AuthorObject (Some (author_name j)));
     Utils.tags := Some (tags j);
     Utils.title := Some (title j) |}.

(** An element of [feedData.items] taken as a [NormalizedItem] by the
    next build ([existingArticles = feedData.items]): the properties
    that the two shapes share. *)
Definition reload (j : JsonItem) : Entry :=
  {| item_id := id j;
     item_title := Some (title j);
     item_link := None;
     item_pubDate := None;
     item_fetchedAt := None;
     item_description := None;
     item_source := None;
     item_category := None;
     item_author := Some (Utils.AuthorObject (Some (author_name j)));
     item_regions := None;
     item_image := image j;
     item_imageUrl := None;
     item_thumbnailUrl := None |}.

End JsonFeed.

(** ** Source list of the front end ([getUniqueSources]) *)

Module Sources.

Import Utils.

(** The values kept by [.map(item => item.source || item.publisher)
    .filter(Boolean)]. *)
Definition sourceOf (item : Item) : option string :=
  let v := or_else (source item) (publisher item) in
  if truthy v then v else None.

(** [Array.from(new Set(values))]: the distinct values, each at its
    first occurrence. *)
Fixpoint distinct (seen : list string) (values : list string) : list string :=
  match values with
  | [] => []
  | v :: rest =>
      if bool_decide (v ∈ seen) then distinct seen rest
      else v :: distinct (v :: seen) rest
  end.

(** The order of [Array.prototype.sort()] on strings: by UTF-16 code
    units. *)
Definition stringLe (a b : string) : Prop := JsUtf16.le a b = true.

#[export] Instance stringLe_dec (a b : string) : Decision (stringLe a b).
Proof. unfold stringLe. apply _. Defined.

Definition getUniqueSources (articles : list Item) : list string :=
  merge_sort stringLe (distinct [] (omap sourceOf articles)).

End Sources.

(** ** Structured logging ([log]) *)

Module Logging.

Inductive Level := info | warn | error.

(** [console.log], [console.warn] and [console.error]. *)
Inductive Stream := stdout | stdwarn | stderr.

Definition MAX_LOG_FILE_FAILURES : Z := 5.

(** What [fs.appendFileSync] does when it is called: it writes, or it
    throws an error with a message. *)
Inductive Disk := Writes | Refuses (message : string).

(** What one call prints and what it appends to the log file. *)
Record Output := {
  console : list (Stream * string);
  appended : option string
}.

Definition toUpperCase (level : Level) : string :=
  match level with info => "INFO" | warn => "WARN" | error => "ERROR" end.

Definition consoleMethod (level : Level) : Stream :=
  match level with error => stderr | warn => stdwarn | info => stdout end.

Definition newline : string := String (ascii_of_nat 10) "".

Section Log.

(** [process.env.LOG_TO_FILE !== 'false'] *)
Variable LOG_TO_FILE : bool.

(** [JSON.stringify] of the entry, and of a context object. *)
Variable stringifyEntry : Level -> string -> string -> option string -> string.

(** [log], as a transition of [logFileFailures]; [timestamp] is
    [new Date().toISOString()] and [context] the JSON text of the
    context object, when one is given. *)
Definition log (timestamp : string) (disk : Disk) (logFileFailures : Z)
    (level : Level) (message : string) (context : option string)
    : Z * Output :=
  let entry := (consoleMethod level,
                stringifyEntry level message timestamp context) in
  if LOG_TO_FILE && (logFileFailures <? MAX_LOG_FILE_FAILURES) then
    let logMessage :=
      timestamp +:+ " [" +:+ toUpperCase level +:+ "] " +:+ message +:+
      match context with Some json => " " +:+ json | None => "" end +:+
      newline in
    match disk with
    | Writes =>
        (if 0 <? logFileFailures then 0 else logFileFailures,
         {| console := [entry]; appended := Some logMessage |})
    | Refuses reason =>
        let logFileFailures := logFileFailures + 1 in
        (logFileFailures,
         {| console :=
              entry ::
              (if logFileFailures =? 1 then
                 [(stderr, "[LOGGING] Failed to write to log file: " +:+ reason)]
               else if logFileFailures =? MAX_LOG_FILE_FAILURES then
                 [(stderr, "[LOGGING] Max log file failures (" +:+
                           of_Z MAX_LOG_FILE_FAILURES +:+
                           ") reached. File logging disabled for this session.")]
               else []);
            appended := None |})
    end
  else
    (logFileFailures, {| console := [entry]; appended := None |}).

(** One call: time, state of the disk, level, message, context. *)
Record LogCall := {
  call_timestamp : string;
  call_disk : Disk;
  call_level : Level;
  call_message : string;
  call_context : option string
}.

(** Successive calls, threading [logFileFailures]. *)
Fixpoint logAll (calls : list LogCall) (logFileFailures : Z) : Z * list Output :=
  match calls with
  | [] => (logFileFailures, [])
  | c :: rest =>
      let r := log (call_timestamp c) (call_disk c) logFileFailures
                   (call_level c) (call_message c) (call_context c) in
      let rest' := logAll rest r.1 in
      (rest'.1, r.2 :: rest'.2)
  end.

End Log.

(** A call during which the log file cannot be written. *)
Definition refused (c : LogCall) : Prop :=
  exists reason, call_disk c = Refuses reason.

End Logging.

(** ** Article filter of the front end ([filterArticles]) *)

Module Filter.

(** The properties of an article that [filterArticles] reads. *)
Record Shown := {
  title : option string;
  description : option string;
  category : option string;
  source : option string;
  publisher : option string;
  pubDate : option string;
  fetchedAt : option string
}.

(** The second argument, [{ timeframe, query, region, category, source,
    sort }]; the two criteria that share a name with a property of the
    article are [by_category] and [by_source] here. *)
Record Criteria := {
  timeframe : option string;
  query : option string;
  region : option string;
  by_category : option string;
  by_source : option string;
  sort : option string
}.

(** [String(v)] in a concatenation: a missing property reads
    ['undefined']. *)
Definition str (v : option string) : string :=
  match v with Some s => s | None => "undefined" end.

(** The time values a [Date] can hold; outside, the date is invalid. *)
Definition timeClip (t : Z) : option Z :=
  if Z.abs t <=? 8640000000000000 then Some t else None.

Definition notExcluded (it : Shown) : bool :=
  negb (bool_decide (category it = Some "not relevant")) &&
  negb (bool_decide (category it = Some "excluded")) &&
  negb (bool_decide (category it = Some "blacklisted")).

Definition matchesQuery (q : string) (it : Shown) : bool :=
  match title it with
  | Some t => nonempty t && includes (toLowerCase t) q
  | None => false
  end ||
  match description it with
  | Some d => nonempty d && includes (toLowerCase d) q
  | None => false
  end.

Definition matchesRegion (region : string) (it : Shown) : bool :=
  let r := toLowerCase region in
  includes (toLowerCase (str (title it) +:+ " " +:+ str (description it))) r.

Section Browser.

(** [Date.now()], [parseInt(s, 10)] and [new Date(s).getTime()], the
    last two with [None] for [NaN]; and [Array.prototype.sort] with a
    comparator that may yield [NaN]. *)
Variable now : Z.
Variable parseInt : string -> option Z.
Variable dateParse : string -> option Z.
Variable arraySort : (Shown -> Shown -> option Z) -> list Shown -> list Shown.

(** [new Date(it.pubDate || it.fetchedAt || 0).getTime()] *)
Definition timeOf (it : Shown) : option Z :=
  match or_else (pubDate it) (fetchedAt it) with
  | Some s => if nonempty s then dateParse s else Some 0
  | None => Some 0
  end.

(** [new Date(Date.now() - daysAgo * 24 * 60 * 60 * 1000)] *)
Definition cutoffDate (timeframe : string) : option Z :=
  match parseInt timeframe with
  | Some daysAgo => timeClip (now - daysAgo * 24 * 60 * 60 * 1000)
  | None => None
  end.

(** [pubDate >= cutoffDate]: false when either date is invalid. *)
Definition inTimeframe (timeframe : string) (it : Shown) : bool :=
  match timeOf it, cutoffDate timeframe with
  | Some pubDate, Some cutoff => cutoff <=? pubDate
  | _, _ => false
  end.

(** [new Date(x...) - new Date(y...)] *)
Definition minus (x y : Shown) : option Z :=
  match timeOf x, timeOf y with
  | Some tx, Some ty => Some (tx - ty)
  | _, _ => None
  end.

(** [if (criterion) list = list.filter(keep)] *)
Definition narrow (criterion : option string) (keep : string -> Shown -> bool)
    (l : list Shown) : list Shown :=
  match criterion with
  | Some c => if nonempty c then List.filter (keep c) l else l
  | None => l
  end.

(** The list before it is sorted. *)
Definition filtered (items : list Shown) (c : Criteria) : list Shown :=
  let l := items in
  let l := List.filter notExcluded l in
  let l := narrow (timeframe c) inTimeframe l in
  let l := narrow (query c) (fun query => matchesQuery (toLowerCase query)) l in
  let l := narrow (region c) matchesRegion l in
  let l :=
    narrow (by_category c)
           (fun category it => bool_decide (Filter.category it = Some category)) l in
  narrow (by_source c)
         (fun source it =>
            bool_decide (or_else (Filter.source it) (publisher it) = Some source))
         l.

Definition filterArticles (items : list Shown) (c : Criteria) : list Shown :=
  let l := filtered items c in
  if bool_decide (sort c = Some "newest")
  then arraySort (fun a b => minus b a) l
  else arraySort (fun a b => minus a b) l.

End Browser.

End Filter.

(** ** Sample inputs *)

Module Samples.

Import Playwright Playwright.Scripted.

(** A 403 body of an anti-bot interstitial. *)
Definition blocked403 : string :=
  "<html><title>just a moment...</title><div id='cf-browser-verification'></div></html>".

(** A feed on an allowlisted domain, and a host that merely embeds an
    allowlisted domain in its name. *)
Definition feedUrl : string := "https://www.connectcre.com/feed".

Definition lookalikeUrl : string := "https://notconnectcre.com/feed".

Definition feedXml : string :=
  "<?xml version='1.0'?><rss><channel></channel></rss>".

Definition clearance : Cookie :=
  {| cookie_name := "cf_clearance"; cookie_value := "token";
     cookie_domain := ".connectcre.com"; cookie_path := "/";
     cookie_expires := 0; cookie_httpOnly := true; cookie_secure := true;
     cookie_sameSite := "None" |}.

(** A site that serves the feed and sets the clearance cookie. *)
Definition servingSite : list (string * Answer) :=
  [ (feedUrl, Page feedXml [clearance]) ].


Definition browserAt (now : Z) (site : list (string * Answer)) : Browser :=
  {| clock := now; site := site; shown := ""; jar := []; visited := [] |}.

Definition systemAt (now : Z) (site : list (string * Answer)) (fs : Files) : Sys :=
  {| world := browserAt now site; files := fs |}.

(** A session on the serving site, and on the stalling site. *)
Definition served : Sys := systemAt 0 servingSite noFiles.





End Samples.

(** Sample runs of the fetch stage. *)

Module FetcherSamples.

Import Fetcher.

Definition tradeFeed : FeedConfig :=
  {| feed_url := "https://example.com/feed"; feed_name := "Example";
     feed_region := "US"; enabled := Some true |}.

Definition article : NormalizedItem :=
  {| id := "https://example.com/a"; title := "A"; link := "https://example.com/a";
     pubDate := None; fetchedAt := None; description := "";
     source := "Example"; category := None |}.

(** A pipeline run in which every feed fails, one in which every feed
    yields one article, and one in which every feed succeeds with
    nothing kept. *)
Definition failing (feeds : list FeedConfig) : list PipelineResult :=
  map (fun f => {| feed := f; articles := None;
                   error := Some "HTTP 503"; rawCount := None |}) feeds.

Definition succeeding (feeds : list FeedConfig) : list PipelineResult :=
  map (fun f => {| feed := f; articles := Some [article];
                   error := None; rawCount := Some 1 |}) feeds.

Definition succeedingEmpty (feeds : list FeedConfig) : list PipelineResult :=
  map (fun f => {| feed := f; articles := Some [];
                   error := None; rawCount := Some 0 |}) feeds.

Definition stamp (t : Z) : string := of_Z t.

(** The state after runs at times 0, 1, ... of the given pipelines. *)
Fixpoint afterRuns (pipelines : list (list FeedConfig -> list PipelineResult))
    (now : Z) (st : State) : State :=
  match pipelines with
  | [] => st
  | p :: rest =>
      afterRuns rest (now + 1)
        (fetchAllRSSArticles stamp p [tradeFeed] [] now now st).1
  end.

End FetcherSamples.

(** Sample feed items. *)

Module UtilsSamples.

Import Utils.

(** An item with no property at all, and one that has only an id. *)
Definition bare : Item :=
  {| id := None; url := None; link := None; date_published := None;
     pubDate := None; content_text := None; content_html := None;
     description := None; source := None; publisher := None;
     author := None; tags := None; title := None |}.

Definition undated : Item :=
  {| id := Some "guid-1"; url := None; link := None; date_published := None;
     pubDate := None; content_text := None; content_html := None;
     description := None; source := None; publisher := None;
     author := None; tags := None; title := None |}.

(** A JSON Feed item as [feed.json] carries it. *)
Definition published : Item :=
  {| id := Some "https://example.com/a"; url := Some "https://example.com/a";
     link := None; date_published := Some "2025-01-15T08:00:00.000Z";
     pubDate := None; content_text := Some "Lease signed"; content_html := None;
     description := None; source := None; publisher := None;
     author := Some (AuthorObject (Some "Example"));
     tags := Some ["TRANSACTIONS"; "NJ"]; title := Some "A" |}.

Definition morning : Env :=
  {| nowISO := "2025-01-15T09:00:00.000Z"; random := "0.123" |}.

Definition evening : Env :=
  {| nowISO := "2025-01-15T21:00:00.000Z"; random := "0.456" |}.

End UtilsSamples.

(** Sample articles for the static build. *)

Module StaticBuildSamples.

(** An article already published, the same identifier fetched again
    under a new title, and an article not seen before. *)
Definition publishedArticle : NormalizedItem :=
  {| id := "https://example.com/a"; title := "Warehouse sold";
     link := "https://example.com/a"; pubDate := None; fetchedAt := None;
     description := ""; source := "Example"; category := Some "transaction" |}.

Definition refetchedArticle : NormalizedItem :=
  {| id := "https://example.com/a"; title := "Warehouse sold (updated)";
     link := "https://example.com/a"; pubDate := None; fetchedAt := None;
     description := "More detail"; source := "Example"; category := None |}.

Definition freshArticle : NormalizedItem :=
  {| id := "https://example.com/b"; title := "Lease signed";
     link := "https://example.com/b"; pubDate := None; fetchedAt := None;
     description := ""; source := "Example"; category := None |}.

End StaticBuildSamples.

(** Further sample inputs of the bypass subsystem. *)

Module BypassSamples.

Import Playwright Playwright.Scripted Samples.

(** A feed address without a scheme: [new URL] throws on it. *)
Definition schemelessUrl : string := "www.connectcre.com/feed".

(** An original response that is no challenge. *)
Definition plainResponse : OriginalResponse :=
  {| status := 200; body := feedXml |}.

(** A machine without the Chromium executable: the launch throws. *)
Definition launchError : string := "browserType.launch: Executable doesn't exist".

Definition noBrowser : Platform := {|
  World := Browser;
  Date_now := clock;
  isoDate := dayStamp;
  url_hostname := hostname;
  url_origin := origin;
  url_href := href;
  fs_writeFileSync := fun _ _ => true;
  browser_launch := fun w => Threw launchError w;
  browser_newContext := newContext;
  context_addCookies := addCookies;
  context_newPage := fun w => Done tt w;
  page_goto := goto;
  page_waitForTimeout := wait;
  page_content := fun w => Done (shown w) w;
  page_feedLink := fun w => Done None w;
  context_cookies := fun w => Done (jar w) w;
  context_close := fun w => Done tt w
|}.

Definition unlaunched : @Sys noBrowser :=
  @Build_Sys noBrowser (browserAt 0 servingSite) noFiles.



(** A site on a host that embeds an allowlisted domain in its name. *)
Definition lookalikeSite : list (string * Answer) :=
  [ (lookalikeUrl, Page feedXml []) ].

End BypassSamples.

(** Sample results of the pipeline for one feed. *)

Module BreakerSamples.

Import Fetcher FetcherSamples.

(** The feed answers with an error and no article. *)
Definition outage : PipelineResult :=
  {| feed := tradeFeed; articles := None;
     error := Some "HTTP 503"; rawCount := None |}.

Definition otherFeedUrl : string := "https://example.org/feed".

End BreakerSamples.

(** Sample articles for the source list. *)

Module SourcesSamples.

Import Utils UtilsSamples.

(** An article that has only a source. *)
Definition fromSource (name : string) : Item :=
  {| id := None; url := None; link := None; date_published := None;
     pubDate := None; content_text := None; content_html := None;
     description := None; source := Some name; publisher := None;
     author := None; tags := None; title := None |}.

(** Two sources whose names begin with U+FF21 and U+1F600, one of them
    twice, and an article without source. *)
Definition mixedSources : list Item :=
  [ fromSource "Ａ News"; fromSource "😀 Daily"; bare; fromSource "Ａ News" ].

End SourcesSamples.

(** Sample articles of the JSON feed. *)

Module JsonFeedSamples.

Import JsonFeed.

(** An article of the transaction category, without author. *)
Definition soldEntry : Entry :=
  {| item_id := Some "https://example.com/a";
     item_title := Some "Warehouse sold";
     item_link := Some "https://example.com/a";
     item_pubDate := Some "2025-01-15T08:00:00.000Z";
     item_fetchedAt := Some "2025-01-15T09:00:00.000Z";
     item_description := Some "A 120,000 SF warehouse changed hands.";
     item_source := Some "Example";
     item_category := Some "transaction";
     item_author := None;
     item_regions := Some ["NJ"];
     item_image := None;
     item_imageUrl := None;
     item_thumbnailUrl := None |}.

Definition buildTime : string := "2025-01-16T06:00:00.000Z".

(** [s.repeat(n)] *)
Fixpoint copies (n : nat) (s : string) : string :=
  match n with
  | O => ""
  | S n' => s +:+ copies n' s
  end.

(** A description of 150 accented letters, of two bytes each in UTF-8,
    and one of 199 letters followed by a character of two code units. *)
Definition accented : string := copies 150 "é".

Definition withEmoji : string := copies 199 "a" +:+ "😀" +:+ "b".

End JsonFeedSamples.

(** Sample calls of the logger. *)

Module LoggingSamples.

Import Logging.

(** A stand-in for [JSON.stringify] of the entry. *)
Definition entryText (level : Level) (message timestamp : string)
    (context : option string) : string :=
  timestamp +:+ " " +:+ message.

Definition diskFull : LogCall :=
  {| call_timestamp := "2025-01-15T08:00:00.000Z";
     call_disk := Refuses "ENOSPC: no space left on device";
     call_level := info; call_message := "Starting RSS feed generation";
     call_context := None |}.

Definition diskBack : LogCall :=
  {| call_timestamp := "2025-01-15T08:05:00.000Z";
     call_disk := Writes;
     call_level := warn; call_message := "Could not parse existing feed.json";
     call_context := None |}.

End LoggingSamples.

(** Sample articles and criteria of the filter. *)

Module FilterSamples.

Import Filter.

(** A sort by the comparator: elements compare as in order when the
    comparator yields a number that is not positive, or [NaN]. *)
Definition inOrder (cmp : Shown -> Shown -> option Z) (a b : Shown) : Prop :=
  match cmp a b with Some d => d <= 0 | None => True end.

#[export] Instance inOrder_dec cmp a b : Decision (inOrder cmp a b).
Proof. unfold inOrder. destruct (cmp a b); apply _. Defined.

Definition sortBy (cmp : Shown -> Shown -> option Z) (l : list Shown) : list Shown :=
  merge_sort (inOrder cmp) l.

(** Dates as day numbers, for the sample. *)
Definition dayNumber (s : string) : option Z :=
  if String.eqb s "day 10" then Some 864000000
  else if String.eqb s "day 1" then Some 86400000
  else None.

Definition days (s : string) : option Z :=
  if String.eqb s "7" then Some 7 else None.

Definition recent : Shown :=
  {| title := Some "Warehouse sold in Newark"; description := Some "NJ deal";
     category := Some "transaction"; source := Some "Example"; publisher := None;
     pubDate := Some "day 10"; fetchedAt := None |}.

Definition old : Shown :=
  {| title := Some "Lease signed"; description := None;
     category := Some "relevant"; source := None; publisher := Some "Other";
     pubDate := Some "day 1"; fetchedAt := None |}.

Definition hidden : Shown :=
  {| title := Some "Sports"; description := None;
     category := Some "excluded"; source := Some "Example"; publisher := None;
     pubDate := Some "day 10"; fetchedAt := None |}.

Definition noCriteria : Criteria :=
  {| timeframe := None; query := None; region := None; by_category := None;
     by_source := None; sort := Some "newest" |}.

Definition lastWeek : Criteria :=
  {| timeframe := Some "7"; query := None; region := None; by_category := None;
     by_source := None; sort := Some "newest" |}.

Definition allTime : Criteria :=
  {| timeframe := Some "all"; query := None; region := None; by_category := None;
     by_source := None; sort := Some "newest" |}.

End FilterSamples.

(** * Properties *)

(** ** Strings *)

Module JsStringFacts.

Lemma app_nil_l (s : string) : "" +:+ s = s.
Proof. reflexivity. Qed.

Lemma app_cons (c : ascii) (a b : string) :
  String c a +:+ b = String c (a +:+ b).
Proof. reflexivity. Qed.

Lemma prefix_app (p s : string) :
  String.prefix p s = true <-> exists post, s = p +:+ post.
Proof.
  revert s. induction p as [|c p IH]; intros s.
  - split; [intros _; exists s; reflexivity | intros _; by destruct s].
  - destruct s as [|d s]; simpl.
    + split; [discriminate | intros [post H]; discriminate H].
    + destruct (Ascii.ascii_dec c d) as [->|Hne].
      * rewrite IH. split; intros [post H]; exists post;
          rewrite app_cons in *; congruence.
      * split; [discriminate |].
        intros [post H]. rewrite app_cons in H. congruence.
Qed.

Lemma includes_contains (s sub : string) :
  includes s sub = true <-> contains s sub.
Proof.
  unfold contains.
  induction s as [|c s IH]; cbn [includes].
  - destruct (String.prefix sub "") eqn:Hp.
    + apply prefix_app in Hp as [post Hp].
      split; [intros _; by exists "", post | reflexivity].
    + split; [discriminate |]. intros (pre & post & H).
      destruct pre as [|d pre]; [|discriminate H].
      rewrite app_nil_l in H.
      assert (String.prefix sub "" = true) as Hq by (apply prefix_app; eauto).
      congruence.
  - destruct (String.prefix sub (String c s)) eqn:Hp.
    + apply prefix_app in Hp as [post Hp].
      split; [intros _; by exists "", post | reflexivity].
    + rewrite IH. split.
      * intros (pre & post & ->). by exists (String c pre), post.
      * intros (pre & post & H). destruct pre as [|d pre].
        -- rewrite app_nil_l in H.
           assert (String.prefix sub (String c s) = true) as Hq
             by (apply prefix_app; eauto).
           congruence.
        -- rewrite app_cons in H. injection H as _ ->. eauto.
Qed.

Lemma toLowerCase_app (a b : string) :
  toLowerCase (a +:+ b) = toLowerCase a +:+ toLowerCase b.
Proof.
  induction a as [|c a IH]; [done |].
  rewrite app_cons. cbn [toLowerCase]. by rewrite IH, app_cons.
Qed.

(** A literal occurrence of [sub] survives lower-casing. *)
Lemma includes_toLowerCase (s sub : string) :
  includes s sub = true ->
  includes (toLowerCase s) (toLowerCase sub) = true.
Proof.
  rewrite !includes_contains. intros (pre & post & ->).
  unfold contains.
  exists (toLowerCase pre), (toLowerCase post).
  by rewrite !toLowerCase_app.
Qed.

Lemma includes_nonempty (s sub : string) :
  includes s sub = true -> nonempty sub = true -> nonempty s = true.
Proof.
  intros H Hsub. apply includes_contains in H as (pre & post & ->).
  destruct pre; [|done]. by destruct sub.
Qed.


Lemma strip_www_prefixed (rest : string) : strip_www ("www." +:+ rest) = rest.
Proof. destruct rest; reflexivity. Qed.


Lemma strip_www_other (s : string) :
  startsWith s "www." = false -> strip_www s = s.
Proof. unfold strip_www. by intros ->. Qed.

End JsStringFacts.

Import JsStringFacts.

(** ** Bypass subsystem *)

Module PlaywrightFacts.

Import Playwright Samples BypassSamples.

(** *** Challenge detector *)

Lemma existsb_includes (domain : string) (l : list string) :
  existsb (fun x => includes domain x) l = true <->
  exists x, x ∈ l /\ contains domain x.
Proof.
  rewrite existsb_exists. split.
  - intros (x & Hin & Hx). exists x.
    split; [by apply list_elem_of_In | by apply includes_contains].
  - intros (x & Hin & Hx). exists x.
    split; [by apply list_elem_of_In | by apply includes_contains].
Qed.

Lemma hasIndicator_spec (lower : string) :
  hasIndicator lower = true <-> exists i, i ∈ indicators /\ contains lower i.
Proof. apply existsb_includes. Qed.

Lemma isChallengeHTML_spec (lower : string) :
  isChallengeHTML lower = true <-> challengeShaped lower.
Proof.
  unfold isChallengeHTML, challengeShaped.
  rewrite andb_true_iff, !orb_true_iff, !includes_contains. tauto.
Qed.

Lemma status_is_spec (status : option Z) (code : Z) :
  status_is status code = true <-> status = Some code.
Proof.
  destruct status as [z|]; simpl; [|done].
  rewrite Z.eqb_eq. split; congruence.
Qed.

Lemma isCloudflareChallenge_nonempty (body : string) (status : option Z) :
  isCloudflareChallenge body status = true -> nonempty body = true.
Proof. unfold isCloudflareChallenge. by destruct (nonempty body). Qed.

Lemma isCloudflareChallenge_spec (body : string) (status : option Z) :
  isCloudflareChallenge body status = true <->
  (exists i, i ∈ indicators /\ contains (toLowerCase body) i) /\
  (challengeShaped (toLowerCase body) \/ status = Some 403).
Proof.
  rewrite <- hasIndicator_spec, <- isChallengeHTML_spec, <- status_is_spec.
  unfold isCloudflareChallenge. destruct body as [|c body].
  - cbn. split; [discriminate | intros [Hi _]; discriminate Hi].
  - cbn [nonempty negb]. rewrite andb_true_iff, orb_true_iff. tauto.
Qed.

Lemma isCloudflareChallenge_403 (body : string) :
  contains body "just a moment" ->
  isCloudflareChallenge body (Some 403) = true.
Proof.
  intros Hmoment. apply isCloudflareChallenge_spec. split; [|by right].
  exists "just a moment". split; [constructor |].
  apply includes_contains.
  apply (includes_toLowerCase body "just a moment").
  by apply includes_contains.
Qed.

Section Properties.

Context `{Platform}.

(** *** Allowlist *)

Lemma getDomain_hostname (url hostname : string) :
  url_hostname url = Some hostname -> getDomain url = strip_www hostname.
Proof. unfold getDomain. by intros ->. Qed.

Lemma isAllowlisted_spec (url : string) :
  isAllowlisted url = true <->
  exists hostname allowed,
    url_hostname url = Some hostname /\
    allowed ∈ PLAYWRIGHT_ALLOWLIST /\
    contains (strip_www hostname) allowed.
Proof.
  unfold isAllowlisted. rewrite existsb_includes. unfold getDomain.
  destruct (url_hostname url) as [hostname|].
  - split.
    + intros (allowed & Hin & Hc). by exists hostname, allowed.
    + intros (h & allowed & [= <-] & Hin & Hc). by exists allowed.
  - split.
    + intros (allowed & Hin & Hc). exfalso.
      apply includes_contains in Hc.
      unfold PLAYWRIGHT_ALLOWLIST in Hin.
      repeat (apply elem_of_cons in Hin as [->|Hin]; [discriminate Hc |]).
      by apply elem_of_nil in Hin.
    + by intros (h & allowed & [=] & _).
Qed.

Lemma allowlisted_not_rejected (url : string)
    (originalResponse : option OriginalResponse) (s : Sys) :
  isAllowlisted url = true ->
  (playwrightFetchRSS url originalResponse s).1
    <> rejected (notAllowlistedMessage (getDomain url)).
Proof.
  intros Hallow. unfold playwrightFetchRSS. rewrite Hallow. cbn [negb].
  destruct (confirmed originalResponse); cbn [negb].
  - destruct (truthy (getCachedContent url s)); [discriminate |].
    destruct (checkRateLimit (getDomain url) s); cbn [negb].
    + unfold concludeSession.
      destruct (fetchWithPlaywright _ _) as [[content cs] s'|msg s'];
        repeat case_match; discriminate.
    + cbn [fst]. unfold rejected. intros [=].
  - cbn [fst]. unfold rejected. intros [=].
Qed.

(** *** Challenge confirmation *)

Lemma concludeSession_usedPlaywright (url : string)
    (outcome : Outcome (string * list Cookie)) :
  usedPlaywright (concludeSession url outcome).1 = Some true.
Proof.
  unfold concludeSession.
  destruct outcome as [[content cs] s|msg s]; repeat case_match; reflexivity.
Qed.

(** After the allowlist check and the challenge confirmation. *)
Lemma playwrightFetchRSS_confirmed (url : string)
    (originalResponse : option OriginalResponse) (s : Sys) :
  isAllowlisted url = true ->
  confirmed originalResponse = true ->
  playwrightFetchRSS url originalResponse s =
    if truthy (getCachedContent url s) then
      (cacheHit (getCachedContent url s), s)
    else if checkRateLimit (getDomain url) s then
      concludeSession url
        (fetchWithPlaywright url (incrementRateLimit (getDomain url) s))
    else
      (rejected (rateLimitedMessage (getDomain url)
                   (getRateLimitStatus (getDomain url) s)), s).
Proof.
  intros Hallow Hconf. unfold playwrightFetchRSS.
  rewrite Hallow, Hconf. cbn [negb].
  destruct (truthy (getCachedContent url s)); [done |].
  by destruct (checkRateLimit (getDomain url) s).
Qed.

(** An allowlisted URL goes on to the challenge confirmation and from
    there to the cache, the rate limit and the session. *)
Lemma playwrightFetchRSS_allowlisted (url : string)
    (originalResponse : option OriginalResponse) (s : Sys) :
  isAllowlisted url = true ->
  playwrightFetchRSS url originalResponse s =
    if confirmed originalResponse then
      if truthy (getCachedContent url s) then
        (cacheHit (getCachedContent url s), s)
      else if checkRateLimit (getDomain url) s then
        concludeSession url
          (fetchWithPlaywright url (incrementRateLimit (getDomain url) s))
      else
        (rejected (rateLimitedMessage (getDomain url)
                     (getRateLimitStatus (getDomain url) s)), s)
    else (rejected notAChallengeMessage, s).
Proof.
  intros Hallow.
  destruct (confirmed originalResponse) eqn:Hconf;
    [by apply playwrightFetchRSS_confirmed |].
  unfold playwrightFetchRSS. by rewrite Hallow, Hconf.
Qed.

Lemma playwrightFetchRSS_not_allowlisted (url : string)
    (originalResponse : option OriginalResponse) (s : Sys) :
  isAllowlisted url = false ->
  playwrightFetchRSS url originalResponse s
    = (rejected (notAllowlistedMessage (getDomain url)), s).
Proof. intros Hallow. unfold playwrightFetchRSS. by rewrite Hallow. Qed.

(** C9. The allowlist check is a substring test on the host name with
    a leading "www." removed.  A host that merely embeds an allowlisted
    domain passes it and uses the bypass path: its call is not turned
    away at the allowlist but goes on to the challenge confirmation,
    the cache, the rate limit and the browser session, exactly as for
    an allowlisted host.  A URL that fails the test is turned away
    with nothing done. *)
Theorem allowlist_is_substring_match :
  (forall url,
     isAllowlisted url = true <->
     exists hostname allowed,
       url_hostname url = Some hostname /\
       allowed ∈ PLAYWRIGHT_ALLOWLIST /\
       contains (strip_www hostname) allowed) /\
  (forall url hostname allowed,
     url_hostname url = Some hostname ->
     allowed ∈ PLAYWRIGHT_ALLOWLIST ->
     contains (strip_www hostname) allowed ->
     isAllowlisted url = true /\
     forall originalResponse s,
       (playwrightFetchRSS url originalResponse s).1
         <> rejected (notAllowlistedMessage (getDomain url)) /\
       playwrightFetchRSS url originalResponse s =
         if confirmed originalResponse then
           if truthy (getCachedContent url s) then
             (cacheHit (getCachedContent url s), s)
           else if checkRateLimit (getDomain url) s then
             concludeSession url
               (fetchWithPlaywright url (incrementRateLimit (getDomain url) s))
           else
             (rejected (rateLimitedMessage (getDomain url)
                          (getRateLimitStatus (getDomain url) s)), s)
         else (rejected notAChallengeMessage, s)) /\
  (forall url originalResponse s,
     isAllowlisted url = false ->
     playwrightFetchRSS url originalResponse s
       = (rejected (notAllowlistedMessage (getDomain url)), s)).
Proof.
  split; [exact isAllowlisted_spec |].
  split; [|exact playwrightFetchRSS_not_allowlisted].
  intros url hostname allowed Hhost Hin Hc.
  assert (isAllowlisted url = true) as Hallow.
  { apply isAllowlisted_spec. by exists hostname, allowed. }
  split; [done |]. intros originalResponse s.
  split; [by apply allowlisted_not_rejected |].
  by apply playwrightFetchRSS_allowlisted.
Qed.

(** C6. A response is recognised as a challenge exactly when its
    lower-cased body contains one of the indicator keywords and, in
    addition, the body is challenge-shaped HTML or the status is 403.
    In particular a 403 whose body contains "just a moment" and
    "cf-browser-verification" is a challenge; for a source on an
    allowlisted domain whose breaker is not blocked, the fetch stage
    hands that response to the bypass instead of recording a failure,
    the failure count of the source staying as it was, and the bypass
    accepts it: the call passes the allowlist and the challenge
    confirmation and goes on to the cache, the rate limit and the
    browser session. *)
Theorem challenge_detection :
  (forall body status,
     isCloudflareChallenge body status = true <->
     (exists i, i ∈ indicators /\ contains (toLowerCase body) i) /\
     (challengeShaped (toLowerCase body) \/ status = Some 403)) /\
  (forall body,
     contains body "just a moment" ->
     contains body "cf-browser-verification" ->
     isCloudflareChallenge body (Some 403) = true) /\
  (forall now breaker url body,
     FetchStage.blocked now breaker = false ->
     isAllowlisted url = true ->
     contains body "just a moment" ->
     contains body "cf-browser-verification" ->
     let originalResponse := {| status := 403; body := body |} in
     FetchStage.route now breaker url (FetchStage.Response 403 body)
       = FetchStage.Bypass originalResponse /\
     FetchStage.route now breaker url (FetchStage.Response 403 body)
       <> FetchStage.FetchFailed /\
     (forall failureCount,
        FetchStage.failuresAfter failureCount
          (FetchStage.route now breaker url (FetchStage.Response 403 body))
        = failureCount) /\
     forall s,
       playwrightFetchRSS url (Some originalResponse) s =
         if truthy (getCachedContent url s) then
           (cacheHit (getCachedContent url s), s)
         else if checkRateLimit (getDomain url) s then
           concludeSession url
             (fetchWithPlaywright url (incrementRateLimit (getDomain url) s))
         else
           (rejected (rateLimitedMessage (getDomain url)
                        (getRateLimitStatus (getDomain url) s)), s)).
Proof.
  split; [exact isCloudflareChallenge_spec |].
  split; [intros body Hmoment _; by apply isCloudflareChallenge_403 |].
  intros now breaker url body Hopen Hallow Hmoment _ originalResponse.
  pose proof (isCloudflareChallenge_403 body Hmoment) as Hchallenge.
  assert (FetchStage.route now breaker url (FetchStage.Response 403 body)
          = FetchStage.Bypass originalResponse) as Hroute.
  { unfold FetchStage.route. by rewrite Hopen, Hchallenge, Hallow. }
  split; [exact Hroute |]. split; [by rewrite Hroute |].
  split; [intros failureCount; by rewrite Hroute |].
  intros s. by apply playwrightFetchRSS_confirmed.
Qed.

(** A 403 that carries the interstitial keywords passes the
    confirmation: on an allowlisted URL the bypass treats the call as
    it treats one without an original response. *)
Lemma challenge_response_enters_bypass (url body : string) (s : Sys) :
  isAllowlisted url = true ->
  contains body "just a moment" ->
  playwrightFetchRSS url (Some {| status := 403; body := body |}) s
    = playwrightFetchRSS url None s.
Proof.
  intros Hallow Hmoment.
  rewrite !playwrightFetchRSS_confirmed; try done.
  cbn [confirmed status Playwright.body]. by apply isCloudflareChallenge_403.
Qed.

(** C10. Without an [originalResponse] the challenge confirmation is
    skipped: on an allowlisted URL the call goes on to the cache check,
    the rate-limit check and the browser session, and is never turned
    away as not being a challenge. *)
Theorem no_response_skips_confirmation (url : string) (s : Sys) :
  isAllowlisted url = true ->
  (playwrightFetchRSS url None s).1 <> rejected notAChallengeMessage /\
  playwrightFetchRSS url None s =
    if truthy (getCachedContent url s) then
      (cacheHit (getCachedContent url s), s)
    else if checkRateLimit (getDomain url) s then
      concludeSession url
        (fetchWithPlaywright url (incrementRateLimit (getDomain url) s))
    else
      (rejected (rateLimitedMessage (getDomain url)
                   (getRateLimitStatus (getDomain url) s)), s).
Proof.
  intros Hallow.
  pose proof (playwrightFetchRSS_confirmed url None s Hallow eq_refl) as Heq.
  split; [|exact Heq]. rewrite Heq.
  destruct (truthy (getCachedContent url s)); [discriminate |].
  destruct (checkRateLimit (getDomain url) s).
  - intros Hr.
    pose proof (concludeSession_usedPlaywright url
      (fetchWithPlaywright url (incrementRateLimit (getDomain url) s))) as Hu.
    rewrite Hr in Hu. discriminate Hu.
  - cbn [fst]. unfold rejected. intros [=].
Qed.

(** *** Computations that leave the documents alone *)

Lemma keepsFiles_ret {A} (a : A) : keepsFiles (mret a).
Proof. by intros s. Qed.

Lemma keepsFiles_throw {A} (msg : string) : keepsFiles (throw (A:=A) msg).
Proof. by intros s. Qed.

Lemma keepsFiles_bind {A B} (m : M A) (k : A -> M B) :
  keepsFiles m -> (forall a, keepsFiles (k a)) -> keepsFiles (m ≫= k).
Proof.
  intros Hm Hk s. unfold mbind, M_bind. specialize (Hm s).
  destruct (m s) as [a s'|msg s']; cbn [final] in *; [|done].
  by rewrite Hk.
Qed.

Lemma keepsFiles_platform {A} (op : World -> Step World A) :
  keepsFiles (platform op).
Proof. intros s. unfold platform. by destruct (op (world s)). Qed.

Lemma keepsFiles_try_catch {A} (m : M A) (handler : string -> M A) :
  keepsFiles m -> (forall msg, keepsFiles (handler msg)) ->
  keepsFiles (try_catch m handler).
Proof.
  intros Hm Hh s. unfold try_catch. specialize (Hm s).
  destruct (m s) as [a s'|msg s']; cbn [final] in *; [done |].
  by rewrite Hh.
Qed.

Lemma keepsFiles_try_finally {A} (m : M A) (cleanup : M unit) :
  keepsFiles m -> keepsFiles cleanup -> keepsFiles (try_finally m cleanup).
Proof.
  intros Hm Hc s. unfold try_finally. specialize (Hm s).
  destruct (m s) as [a s'|msg s']; cbn [final] in *;
    specialize (Hc s'); destruct (cleanup s'); cbn [final] in *; congruence.
Qed.

Lemma keepsFiles_parsed (o : option string) : keepsFiles (parsed o).
Proof. destruct o; [apply keepsFiles_ret | apply keepsFiles_throw]. Qed.

Lemma keepsFiles_dateNow : keepsFiles dateNow.
Proof. by intros s. Qed.

Lemma keepsFiles_loadCookies : keepsFiles loadCookies.
Proof. by intros s. Qed.

Ltac keeps_files :=
  repeat first
    [ apply keepsFiles_ret
    | apply keepsFiles_throw
    | apply keepsFiles_platform
    | apply keepsFiles_parsed
    | apply keepsFiles_dateNow
    | apply keepsFiles_loadCookies
    | apply keepsFiles_bind; [|intros ?]
    | apply keepsFiles_try_catch; [|intros ?]
    | apply keepsFiles_try_finally
    | match goal with
      | |- keepsFiles (if ?b then _ else _) => destruct b
      | |- keepsFiles (match ?o with _ => _ end) => destruct o
      end ].



Lemma keepsFiles_openSession (domain : string) : keepsFiles (openSession domain).
Proof. unfold openSession. keeps_files. Qed.


(** *** The session and the cookie store *)














(** *** Cache *)










(** *** Rate limit *)


Lemma getRateLimitStatus_usedOn (domain : string) (s : Sys) :
  getRateLimitStatus domain s
  = (MAX_RUNS_PER_DOMAIN_PER_DAY
       - usedOn (getTodayString (world s)) domain (files s),
     MAX_RUNS_PER_DOMAIN_PER_DAY).
Proof. reflexivity. Qed.












End Properties.

Import Playwright.Scripted.

Lemma challenge_detection_witness :
  contains blocked403 "just a moment" /\
  contains blocked403 "cf-browser-verification" /\
  isCloudflareChallenge blocked403 (Some 403) = true /\
  FetchStage.route 0 None feedUrl (FetchStage.Response 403 blocked403)
    = FetchStage.Bypass {| status := 403; body := blocked403 |} /\
  FetchStage.failuresAfter 2
    (FetchStage.route 0 None feedUrl (FetchStage.Response 403 blocked403)) = 2.
Proof.
  assert (contains blocked403 "just a moment") as H1
    by (apply includes_contains; reflexivity).
  assert (contains blocked403 "cf-browser-verification") as H2
    by (apply includes_contains; reflexivity).
  split; [exact H1 | split; [exact H2 |]].
  split; [exact (proj1 (proj2 challenge_detection) blocked403 H1 H2) |].
  assert (isAllowlisted feedUrl = true) as Hallow by reflexivity.
  destruct (proj2 (proj2 challenge_detection) 0 None feedUrl blocked403
              eq_refl Hallow H1 H2) as (Hroute & _ & Hcount & _).
  split; [exact Hroute | exact (Hcount 2)].
Defined.

(** The look-alike host passes the allowlist on the scripted platform,
    and a browser session is run for it. *)
Lemma allowlist_is_substring_match_witness :
  let s := systemAt 0 lookalikeSite noFiles in
  Scripted.hostname lookalikeUrl = Some "notconnectcre.com" /\
  contains (strip_www "notconnectcre.com") "connectcre.com" /\
  isAllowlisted lookalikeUrl = true /\
  playwrightFetchRSS lookalikeUrl None s
    = concludeSession lookalikeUrl
        (fetchWithPlaywright lookalikeUrl
           (incrementRateLimit (getDomain lookalikeUrl) s)) /\
  (playwrightFetchRSS lookalikeUrl None s).1
    = {| success := true; result_content := Some feedXml; error := None;
         fromCache := Some false; usedPlaywright := Some true |}.
Proof.
  intros s.
  assert (contains (strip_www "notconnectcre.com") "connectcre.com") as Hc
    by (apply includes_contains; reflexivity).
  assert ("connectcre.com" ∈ PLAYWRIGHT_ALLOWLIST) as Hin by constructor.
  assert (url_hostname lookalikeUrl = Some "notconnectcre.com") as Hhost
    by reflexivity.
  destruct (proj1 (proj2 allowlist_is_substring_match) lookalikeUrl
              "notconnectcre.com" "connectcre.com" Hhost Hin Hc)
    as [Hallow Hcall].
  split; [exact Hhost | split; [exact Hc | split; [exact Hallow |]]].
  split; [exact (proj2 (Hcall None s)) |].
  vm_compute. reflexivity.
Defined.

Lemma no_response_skips_confirmation_witness :
  isAllowlisted feedUrl = true /\
  (playwrightFetchRSS feedUrl None (systemAt 0 servingSite noFiles)).1
    <> rejected notAChallengeMessage.
Proof.
  split; [reflexivity |].
  exact (proj1 (no_response_skips_confirmation feedUrl
                  (systemAt 0 servingSite noFiles) eq_refl)).
Defined.









End PlaywrightFacts.

(** ** Fetch stage and circuit breaker *)

Module FetcherFacts.

Import Fetcher FetcherSamples.

Section Breaker.

Variable toISOString : Z -> string.

(** The feeds handed to the pipeline are the enabled ones; the circuit
    breaker is not consulted. *)
Lemma enabledFeeds_spec (RSS_FEEDS : list FeedConfig) (f : FeedConfig) :
  f ∈ enabledFeeds RSS_FEEDS <-> f ∈ RSS_FEEDS /\ enabled f ≠ Some false.
Proof. unfold enabledFeeds. rewrite list_elem_of_filter. tauto. Qed.

Lemma storeArticle_breaker (now : Z) (pipelineResult : PipelineResult) (n : Z)
    (st : State) (article : NormalizedItem) :
  circuitBreaker (storeArticle toISOString now pipelineResult n st article)
    !! feed_url (feed pipelineResult)
  = resetEntry <$> circuitBreaker st !! feed_url (feed pipelineResult).
Proof.
  unfold storeArticle. cbn [circuitBreaker].
  destruct (circuitBreaker st !! feed_url (feed pipelineResult)) as [cb|] eqn:Hcb.
  - by rewrite lookup_insert_eq.
  - by rewrite Hcb.
Qed.

Lemma storeArticles_breaker (now : Z) (pipelineResult : PipelineResult) (n : Z)
    (articles : list NormalizedItem) (st : State) :
  articles ≠ [] ->
  circuitBreaker (foldl (storeArticle toISOString now pipelineResult n) st articles)
    !! feed_url (feed pipelineResult)
  = resetEntry <$> circuitBreaker st !! feed_url (feed pipelineResult).
Proof.
  intros Hne. destruct articles as [|a rest]; [done |]. clear Hne.
  revert a st. induction rest as [|b rest IH]; intros a st.
  - apply storeArticle_breaker.
  - cbn [foldl] in *. rewrite IH, storeArticle_breaker.
    by destruct (circuitBreaker st !! feed_url (feed pipelineResult)).
Qed.

(** A success that keeps at least one article resets the failure count
    and clears [blockedUntil]. *)
Lemma handleResult_success (startTime now : Z) (st : State)
    (pipelineResult : PipelineResult) (kept : list NormalizedItem)
    (cb : CircuitBreakerState) :
  articles pipelineResult = Some kept ->
  kept ≠ [] ->
  error pipelineResult = None ->
  circuitBreaker st !! feed_url (feed pipelineResult) = Some cb ->
  circuitBreaker (handleResult toISOString startTime now st pipelineResult).1
    !! feed_url (feed pipelineResult)
  = Some (resetEntry cb).
Proof.
  intros Harts Hne Herr Hcb. unfold handleResult.
  rewrite Harts, Herr. cbn [default fst].
  by rewrite storeArticles_breaker, Hcb.
Qed.

(** A failure counts one up; [blockedUntil] is written, with
    [now + 24h], exactly when the count has reached three. *)
Lemma recordFailure_breaker (now : Z) (pipelineResult : PipelineResult)
    (message : string) (st : State) :
  let old := default {| failureCount := 0; blockedUntil := 0;
                        lastError := None; last403Preview := None |}
                     (circuitBreaker st !! feed_url (feed pipelineResult)) in
  exists cb,
    circuitBreaker (recordFailure toISOString now pipelineResult message st)
      !! feed_url (feed pipelineResult) = Some cb /\
    failureCount cb = failureCount old + 1 /\
    (failureCount cb < MAX_FAILURES_BEFORE_BLOCK ->
       blockedUntil cb = blockedUntil old) /\
    (MAX_FAILURES_BEFORE_BLOCK <= failureCount cb ->
       blockedUntil cb = now + BLOCKED_COOLDOWN_MS).
Proof.
  intros old. unfold recordFailure. cbn [circuitBreaker].
  rewrite lookup_insert_eq. eexists. split; [reflexivity |].
  cbn [failureCount blockedUntil]. fold old.
  split; [done |]. split; intros Hcount.
  - by rewrite (proj2 (Z.leb_gt _ _) Hcount).
  - by rewrite (proj2 (Z.leb_le _ _) Hcount).
Qed.

End Breaker.

(** C1. After three failing runs the feed is reported as blocked until
    the next day, yet a fourth run a moment later hands it to the
    pipeline again and returns what the pipeline fetched, with status
    ok: the block is recorded and never acted upon. *)
Theorem blocked_feed_is_fetched_again :
  let st := afterRuns [failing; failing; failing] 0 initial in
  circuitBreaker st !! feed_url tradeFeed
    = Some {| failureCount := 3; blockedUntil := 2 + BLOCKED_COOLDOWN_MS;
              lastError := Some "HTTP 503"; last403Preview := None |} /\
  blocked_url <$> getBlockedFeeds 3 st = [feed_url tradeFeed] /\
  enabledFeeds [tradeFeed] = [tradeFeed] /\
  let run := fetchAllRSSArticles stamp succeeding [tradeFeed] [] 3 3 st in
  (fun r => (result_status r, result_articles r, result_error r)) <$> run.2
    = [("ok", Some [article], None)] /\
  circuitBreaker run.1 !! feed_url tradeFeed
    = Some {| failureCount := 0; blockedUntil := 0;
              lastError := Some "HTTP 503"; last403Preview := None |}.
Proof. vm_compute. repeat split. Qed.

(** C4. After two failures a run that succeeds with no article kept
    has status ok and leaves the failure count at two, so that the next
    failure opens the circuit; had the run kept an article the count
    would have restarted at one. *)
Theorem empty_success_keeps_failure_count :
  let st := afterRuns [failing; failing] 0 initial in
  let run := fetchAllRSSArticles stamp succeedingEmpty [tradeFeed] [] 2 2 st in
  result_status <$> run.2 = ["ok"] /\
  circuitBreaker run.1 !! feed_url tradeFeed
    = Some {| failureCount := 2; blockedUntil := 0;
              lastError := Some "HTTP 503"; last403Preview := None |} /\
  circuitBreaker (afterRuns [failing; failing; succeedingEmpty; failing] 0 initial)
    !! feed_url tradeFeed
    = Some {| failureCount := 3; blockedUntil := 3 + BLOCKED_COOLDOWN_MS;
              lastError := Some "HTTP 503"; last403Preview := None |} /\
  circuitBreaker (afterRuns [failing; failing; succeeding; failing] 0 initial)
    !! feed_url tradeFeed
    = Some {| failureCount := 1; blockedUntil := 0;
              lastError := Some "HTTP 503"; last403Preview := None |}.
Proof. vm_compute. repeat split. Qed.

End FetcherFacts.

(** ** Static build *)

Module StaticBuildFacts.

Import StaticBuild StaticBuildSamples.

Lemma elem_of_existingGuids (existingArticles : list NormalizedItem) (k : string) :
  k ∈ existingGuids existingArticles <->
  exists e, e ∈ existingArticles /\ id e = k.
Proof.
  unfold existingGuids. rewrite elem_of_list_to_set, list_elem_of_In, in_map_iff.
  split; intros (e & H1 & H2); exists e.
  - split; [by apply list_elem_of_In | done].
  - split; [done | by apply list_elem_of_In].
Qed.

Lemma elem_of_newItems (existingArticles filtered : list NormalizedItem)
    (item : NormalizedItem) :
  item ∈ newItems existingArticles filtered <->
  item ∈ filtered /\ id item ∉ existingGuids existingArticles.
Proof.
  unfold newItems. rewrite !list_elem_of_In, filter_In, negb_true_iff.
  rewrite bool_decide_eq_false. tauto.
Qed.

Lemma newItems_sublist (existingArticles filtered : list NormalizedItem) :
  sublist (newItems existingArticles filtered) filtered.
Proof.
  unfold newItems. induction filtered as [|item rest IH]; cbn [List.filter].
  - constructor.
  - destruct (negb _); by constructor.
Qed.

Lemma withId_newItems_known (existingArticles filtered : list NormalizedItem)
    (k : string) :
  k ∈ existingGuids existingArticles ->
  withId k (newItems existingArticles filtered) = [].
Proof.
  intros Hk. unfold withId, newItems.
  induction filtered as [|item rest IH]; cbn [List.filter]; [done |].
  destruct (decide (id item ∈ existingGuids existingArticles)) as [Hin|Hout].
  - by rewrite (bool_decide_eq_true_2 _ Hin).
  - rewrite (bool_decide_eq_false_2 _ Hout). cbn [negb List.filter].
    rewrite IH. case_bool_decide as Hid; [|done]. by subst k.
Qed.

(** C8. Deduplication against the known identifiers is a set
    difference: the new items are the fetched items whose identifier
    is not known, in their order; an item with a known identifier is
    dropped, and the merged list holds under that identifier exactly
    the articles that were already there, unchanged. *)
Theorem dedup_is_set_difference
    (existingArticles filtered : list NormalizedItem) :
  (forall item,
     item ∈ newItems existingArticles filtered <->
     item ∈ filtered /\ forall e, e ∈ existingArticles -> id e ≠ id item) /\
  sublist (newItems existingArticles filtered) filtered /\
  mergedArticles existingArticles filtered
    = newItems existingArticles filtered ++ existingArticles /\
  (forall e,
     e ∈ existingArticles ->
     withId (id e) (mergedArticles existingArticles filtered)
       = withId (id e) existingArticles).
Proof.
  split; [|split; [apply newItems_sublist | split; [reflexivity |]]].
  - intros item. rewrite elem_of_newItems, elem_of_existingGuids.
    split; intros [Hin Hnew]; (split; [exact Hin |]).
    + intros e He Heq. apply Hnew. by exists e.
    + intros (e & He & Heq). by apply (Hnew e).
  - intros e He. unfold mergedArticles, withId at 1.
    rewrite List.filter_app. fold (withId (id e) (newItems existingArticles filtered)).
    rewrite withId_newItems_known; [done |].
    apply elem_of_existingGuids. by exists e.
Qed.

Lemma dedup_is_set_difference_witness :
  publishedArticle ∈ [publishedArticle] /\
  mergedArticles [publishedArticle] [refetchedArticle; freshArticle]
    = [freshArticle; publishedArticle] /\
  withId (id publishedArticle)
         (mergedArticles [publishedArticle] [refetchedArticle; freshArticle])
    = withId (id publishedArticle) [publishedArticle].
Proof.
  assert (publishedArticle ∈ [publishedArticle]) as Hin by constructor.
  split; [exact Hin | split; [reflexivity |]].
  exact (proj2 (proj2 (proj2 (dedup_is_set_difference [publishedArticle]
           [refetchedArticle; freshArticle]))) publishedArticle Hin).
Defined.

End StaticBuildFacts.

(** ** Front-end normalisation *)

Module UtilsFacts.

Import Utils UtilsSamples.

(** C5 (amended). Two evaluations of [transformArticle] on the same
    record agree on the link, description, source, author, category
    and the properties carried over; they agree on the identifier
    whenever the record has a non-empty id or link, the identifier
    being that id or else that link, and on the publication date
    whenever the record has a non-empty date_published or pubDate. *)
Theorem normalisation_deterministic (item : Item) (env1 env2 : Env) :
  let a1 := transformArticle env1 item in
  let a2 := transformArticle env2 item in
  (spread a1 = spread a2 /\ out_link a1 = out_link a2 /\
   out_description a1 = out_description a2 /\ out_source a1 = out_source a2 /\
   out_author a1 = out_author a2 /\ out_category a1 = out_category a2) /\
  (truthy (id item) || truthy (link item) = true ->
   out_id a1 = out_id a2 /\
   Some (out_id a1) = or_else (id item) (link item)) /\
  (truthy (date_published item) || truthy (pubDate item) = true ->
   out_pubDate a1 = out_pubDate a2).
Proof.
  cbn zeta. split; [by repeat split |]. split.
  - cbn [transformArticle out_id]. unfold or_else, or_default, truthy.
    destruct (id item) as [i|]; [destruct (nonempty i) eqn:Hi |];
      cbn [orb]; try rewrite Hi; try done;
      (destruct (link item) as [l|]; [|done]);
      (destruct (nonempty l) eqn:Hl; [by rewrite ?Hl | done]).
  - cbn [transformArticle out_pubDate]. unfold or_else, or_default, truthy.
    destruct (date_published item) as [d|]; [destruct (nonempty d) eqn:Hd |];
      cbn [orb]; try rewrite Hd; try done;
      (destruct (pubDate item) as [p|]; [|done]);
      (destruct (nonempty p) eqn:Hp; [by rewrite ?Hp | done]).
Qed.

Lemma normalisation_deterministic_witness :
  truthy (id published) || truthy (link published) = true /\
  truthy (date_published published) || truthy (pubDate published) = true /\
  transformArticle morning published = transformArticle evening published.
Proof.
  split; [reflexivity | split; [reflexivity |]].
  destruct (normalisation_deterministic published morning evening)
    as ((H1 & H2 & H3 & H4 & H5 & H6) & Hid & Hdate).
  destruct (Hid eq_refl) as [H7 _]. specialize (Hdate eq_refl).
  destruct (transformArticle morning published),
           (transformArticle evening published).
  cbn in *. congruence.
Defined.

(** C5. A record without id and link gets whatever [Math.random]
    yields, and a record without a date gets the current time: two
    evaluations on the same record differ. *)
Lemma identifier_drawn_at_random :
  out_id (transformArticle morning bare) ≠ out_id (transformArticle evening bare) /\
  out_pubDate (transformArticle morning undated)
    ≠ out_pubDate (transformArticle evening undated).
Proof. split; discriminate. Qed.

End UtilsFacts.

(** ** Strings: matching *)

Module JsStringMatchFacts.

Lemma append_nil_r (s : string) : s +:+ "" = s.
Proof. induction s as [|c s IH]; [done |]. by rewrite app_cons, IH. Qed.

Lemma append_assoc (a b c : string) : (a +:+ b) +:+ c = a +:+ b +:+ c.
Proof. induction a as [|x a IH]; [done |]. by rewrite !app_cons, IH. Qed.

Lemma length_append (s t : string) :
  String.length (s +:+ t) = (String.length s + String.length t)%nat.
Proof.
  induction s as [|c s IH]; [done |]. rewrite app_cons. cbn. by rewrite IH.
Qed.

Lemma contains_refl (s : string) : contains s s.
Proof. exists "", "". by rewrite app_nil_l, append_nil_r. Qed.

Lemma prefix_includes (s pat : string) :
  String.prefix pat s = true -> includes s pat = true.
Proof. intros Hp. destruct s; cbn [includes]; by rewrite Hp. Qed.

Lemma prefix_nonempty (s pat : string) :
  String.prefix pat s = true -> nonempty pat = true -> nonempty s = true.
Proof. intros Hp. apply includes_nonempty. by apply prefix_includes. Qed.

Lemma truthy_or_else_l (a b : option string) :
  truthy a = true -> or_else a b = a.
Proof. unfold or_else. by intros ->. Qed.

Lemma truthy_or_else_r (a b : option string) :
  truthy a = false -> or_else a b = b.
Proof. unfold or_else. by intros ->. Qed.

Lemma or_default_truthy (s d : string) :
  nonempty s = true -> or_default (Some s) d = s.
Proof. unfold or_default. by intros ->. Qed.

Lemma or_default_nonempty_default (x : option string) (d : string) :
  nonempty d = true -> nonempty (or_default x d) = true.
Proof.
  intros Hd. unfold or_default. destruct x as [s|]; [|done].
  by destruct (nonempty s) eqn:Hs.
Qed.

Lemma fromFirst_Some (s pat t : string) :
  fromFirst s pat = Some t ->
  String.prefix pat t = true /\ exists pre, s = pre +:+ t.
Proof.
  induction s as [|c s IH]; cbn [fromFirst].
  - destruct (String.prefix pat "") eqn:Hp; [|discriminate].
    intros [= <-]. split; [done | by exists ""].
  - destruct (String.prefix pat (String c s)) eqn:Hp.
    + intros [= <-]. split; [done | by exists ""].
    + intros [Ht [pre ->]]%IH. split; [done |]. by exists (String c pre).
Qed.

(** [fromFirst] finds the first occurrence: no occurrence of the
    pattern starts earlier. *)
Lemma fromFirst_first (s pat t : string) :
  fromFirst s pat = Some t ->
  exists pre,
    s = pre +:+ t /\
    forall p r, s = p +:+ pat +:+ r -> (String.length pre <= String.length p)%nat.
Proof.
  revert t. induction s as [|c s IH]; intros t; cbn [fromFirst].
  - destruct (String.prefix pat "") eqn:Hp; [|discriminate].
    intros [= <-]. exists "". split; [done |]. intros p r _. cbn. lia.
  - destruct (String.prefix pat (String c s)) eqn:Hp.
    + intros [= <-]. exists "". split; [done |]. intros p r _. cbn. lia.
    + intros Ht. destruct (IH t Ht) as (pre & -> & Hmin).
      exists (String c pre). split; [by rewrite app_cons |].
      intros [|d p] r Heq.
      * rewrite app_nil_l in Heq.
        assert (String.prefix pat (String c (pre +:+ t)) = true) as Hyes
          by (apply prefix_app; by exists r).
        congruence.
      * rewrite app_cons in Heq. injection Heq as _ Heq.
        cbn [String.length]. apply Hmin in Heq. lia.
Qed.

Lemma fromFirst_None (s pat : string) :
  fromFirst s pat = None <-> includes s pat = false.
Proof.
  induction s as [|c s IH]; cbn [fromFirst includes].
  - by destruct (String.prefix pat "").
  - by destruct (String.prefix pat (String c s)).
Qed.

Lemma uptoLast_Some (s pat r : string) :
  uptoLast s pat = Some r ->
  exists q post, r = q +:+ pat /\ s = r +:+ post.
Proof.
  revert r. induction s as [|c s IH]; intros r; cbn [uptoLast].
  - destruct (String.prefix pat "") eqn:Hp; [|discriminate].
    intros [= <-]. apply prefix_app in Hp as [post Hp]. by exists "", post.
  - destruct (uptoLast s pat) as [r'|].
    + intros [= <-]. destruct (IH r' eq_refl) as (q & post & -> & ->).
      exists (String c q), post. by rewrite !app_cons.
    + destruct (String.prefix pat (String c s)) eqn:Hp; [|discriminate].
      intros [= <-]. apply prefix_app in Hp as [post Hp]. by exists "", post.
Qed.

Lemma prefix_skip (p t : string) :
  String.prefix p t = true -> t = p +:+ skip (String.length p) t.
Proof.
  revert t. induction p as [|c p IH]; intros t Hp; [done |].
  destruct t as [|d t]; [discriminate Hp |]. cbn in Hp.
  destruct (Ascii.ascii_dec c d) as [->|]; [|discriminate].
  cbn [String.length skip]. rewrite app_cons. f_equal. by apply IH.
Qed.

(** A match of [/open[\s\S]*close/] starts with [open], ends with
    [close] and is a piece of the input. *)
Lemma matchSpan_Some (s open close m : string) :
  matchSpan s open close = Some m ->
  exists pre q post, m = open +:+ q +:+ close /\ s = pre +:+ m +:+ post.
Proof.
  unfold matchSpan.
  destruct (fromFirst s open) as [t|] eqn:Hfirst; [|discriminate].
  apply fromFirst_Some in Hfirst as [Hp [pre ->]].
  destruct (uptoLast (skip (String.length open) t) close) as [r|] eqn:Hlast;
    [|discriminate].
  intros [= <-]. apply uptoLast_Some in Hlast as (q & post & -> & Hrest).
  exists pre, q, post. split; [done |].
  rewrite (prefix_skip _ _ Hp) at 1. rewrite Hrest. by rewrite !append_assoc.
Qed.

End JsStringMatchFacts.

(** ** Bypass subsystem: calls, cache and quota *)

Module BypassFacts.

Import JsStringMatchFacts Playwright Samples BypassSamples PlaywrightFacts
  PlaywrightStats.

Section Calls.

Context `{Platform}.

(** X1. A call of [playwrightFetchRSS] that does not report
    [usedPlaywright: true] leaves the clock, the browser and the three
    persisted documents exactly as they were, and its result is one of
    four: the allowlist rejection, the rejection of a response that is
    no challenge, the cached content, or the rate-limit rejection. *)
Theorem call_without_session_changes_nothing (url : string)
    (originalResponse : option OriginalResponse) (s : Sys) :
  usedPlaywright (playwrightFetchRSS url originalResponse s).1 ≠ Some true ->
  (playwrightFetchRSS url originalResponse s).2 = s /\
  ((playwrightFetchRSS url originalResponse s).1
     = rejected (notAllowlistedMessage (getDomain url)) \/
   (playwrightFetchRSS url originalResponse s).1
     = rejected notAChallengeMessage \/
   (playwrightFetchRSS url originalResponse s).1
     = cacheHit (getCachedContent url s) \/
   (playwrightFetchRSS url originalResponse s).1
     = rejected (rateLimitedMessage (getDomain url)
                   (getRateLimitStatus (getDomain url) s))).
Proof.
  unfold playwrightFetchRSS.
  destruct (isAllowlisted url); cbn [negb]; [|auto].
  destruct (confirmed originalResponse); cbn [negb]; [|auto].
  destruct (truthy (getCachedContent url s)); [auto |].
  destruct (checkRateLimit (getDomain url) s); cbn [negb]; [|auto 6].
  intros Hno. by rewrite concludeSession_usedPlaywright in Hno.
Qed.

(** X2. A URL that [new URL] cannot parse has the empty string as its
    domain; the call is turned away at the allowlist, with the domain
    missing from the message, whatever the original response and the
    state of the cache. *)
Theorem unparsable_url_is_rejected (url : string)
    (originalResponse : option OriginalResponse) (s : Sys) :
  url_hostname url = None ->
  playwrightFetchRSS url originalResponse s
    = (rejected "Domain  not in Playwright allowlist", s).
Proof.
  intros Hurl. unfold playwrightFetchRSS, isAllowlisted, getDomain.
  rewrite Hurl. reflexivity.
Qed.

(** *** Cache pruning *)




(** *** Rate-limit status *)


(** *** The extracted fragment *)

(** The four ways [extractXml] can go. *)
Lemma extractXml_cases (content : string) :
  (exists pre, String.prefix "<?xml" (extractXml content) = true /\
               content = pre +:+ extractXml content /\
               forall p r, content = p +:+ "<?xml" +:+ r ->
                           (String.length pre <= String.length p)%nat) \/
  (includes content "<?xml" = false /\
   exists pre q post,
     extractXml content = "<rss" +:+ q +:+ "</rss>" /\
     content = pre +:+ extractXml content +:+ post) \/
  (includes content "<?xml" = false /\
   exists pre q post,
     extractXml content = "<feed" +:+ q +:+ "</feed>" /\
     content = pre +:+ extractXml content +:+ post) \/
  (includes content "<?xml" = false /\ extractXml content = content).
Proof.
  unfold extractXml, matchToEnd.
  destruct (fromFirst content "<?xml") as [t|] eqn:Hxml.
  - left. pose proof (fromFirst_Some _ _ _ Hxml) as [Hp _].
    apply fromFirst_first in Hxml as (pre & Hc & Hmin).
    assert (nonempty t = true) as Ht by (by apply (prefix_nonempty _ _ Hp)).
    rewrite (truthy_or_else_l (Some t)), (truthy_or_else_l (Some t)),
      or_default_truthy by done.
    by exists pre.
  - right. apply fromFirst_None in Hxml.
    rewrite (truthy_or_else_r None) by done.
    destruct (matchSpan content "<rss" "</rss>") as [m|] eqn:Hrss.
    + left. split; [done |].
      apply matchSpan_Some in Hrss as (pre & q & post & -> & Hc).
      rewrite truthy_or_else_l, or_default_truthy by done.
      by exists pre, q, post.
    + right. rewrite (truthy_or_else_r None) by done.
      destruct (matchSpan content "<feed" "</feed>") as [m|] eqn:Hfeed.
      * left. split; [done |].
        apply matchSpan_Some in Hfeed as (pre & q & post & -> & Hc).
        rewrite or_default_truthy by done.
        by exists pre, q, post.
      * right. by split.
Qed.

Lemma contains_extractXml (content : string) :
  contains content (extractXml content).
Proof.
  destruct (extractXml_cases content)
    as [(pre & Hp & Hc & _)|[(Hno & pre & q & post & Hm & Hc)
        |[(Hno & pre & q & post & Hm & Hc)|[Hno Hsame]]]].
  - exists pre, "". by rewrite append_nil_r.
  - by exists pre, post.
  - by exists pre, post.
  - rewrite Hsame. apply contains_refl.
Qed.

Lemma looksLikeFeed_extractXml (content : string) :
  looksLikeFeed content = true -> looksLikeFeed (extractXml content) = true.
Proof.
  destruct (extractXml_cases content)
    as [(pre & Hp & Hc & _)|[(Hno & pre & q & post & Hm & Hc)
        |[(Hno & pre & q & post & Hm & Hc)|[Hno Hsame]]]].
  - intros _. unfold looksLikeFeed. by rewrite (prefix_includes _ _ Hp).
  - intros _. unfold looksLikeFeed.
    assert (includes (extractXml content) "<rss" = true) as ->
      by (apply includes_contains; exists "", (q +:+ "</rss>"); by rewrite Hm).
    by rewrite orb_true_r.
  - intros _. unfold looksLikeFeed.
    assert (includes (extractXml content) "<feed" = true) as ->
      by (apply includes_contains; exists "", (q +:+ "</feed>"); by rewrite Hm).
    by rewrite !orb_true_r.
  - by rewrite Hsame.
Qed.

(** X5. The XML that [playwrightFetchRSS] extracts from a page is a
    piece of that page; it still has a feed marker whenever the page
    had one; and when the page holds an XML declaration the fragment
    starts at the first declaration, no ["<?xml"] beginning earlier in
    the page, and runs to the end of the page. *)
Theorem extracted_fragment (content : string) :
  contains content (extractXml content) /\
  (looksLikeFeed content = true -> looksLikeFeed (extractXml content) = true) /\
  (includes content "<?xml" = true ->
   startsWith (extractXml content) "<?xml" = true /\
   exists pre,
     content = pre +:+ extractXml content /\
     forall p r, content = p +:+ "<?xml" +:+ r ->
                 (String.length pre <= String.length p)%nat).
Proof.
  split; [apply contains_extractXml |].
  split; [apply looksLikeFeed_extractXml |].
  intros Hxml.
  destruct (extractXml_cases content)
    as [(pre & Hp & Hc & Hmin)|[(Hno & _)|[(Hno & _)|[Hno _]]]];
    try congruence.
  split; [exact Hp | by exists pre].
Qed.



(** *** The session *)

(** X7. The loop over the alternate feed URLs never throws, whatever
    the browser does at each of them: it returns the content it was
    given, or a page with a feed marker, and leaves the persisted
    documents alone. *)
Theorem alternate_urls_never_throw (alternateUrls : list string)
    (finalContent : string) (s : Sys) :
  exists content s',
    tryAlternateUrls alternateUrls finalContent s = Returns content s' /\
    (content = finalContent \/ looksLikeFeed content = true) /\
    files s' = files s.
Proof.
  revert s. induction alternateUrls as [|altUrl rest IH]; intros s.
  - exists finalContent, s. split; [reflexivity | split; [by left | done]].
  - cbn [tryAlternateUrls]. unfold mbind, M_bind, try_catch, platform.
    destruct (page_goto altUrl 15000 (world s)) as [[] w|msg w]; cbn [world files].
    + destruct (page_content w) as [altContent w'|msg w'].
      * unfold mret, M_ret.
        destruct (looksLikeFeed altContent) eqn:Hfeed.
        -- eexists _, _. split; [reflexivity | split; [by right | done]].
        -- destruct (IH {| world := w'; files := files s |})
             as (c & s' & Hrun & Hc & Hfiles).
           exists c, s'. by rewrite Hrun.
      * unfold mret, M_ret.
        destruct (IH {| world := w'; files := files s |})
          as (c & s' & Hrun & Hc & Hfiles).
        exists c, s'. by rewrite Hrun.
    + unfold mret, M_ret.
      destruct (IH {| world := w; files := files s |})
        as (c & s' & Hrun & Hc & Hfiles).
      exists c, s'. by rewrite Hrun.
Qed.

(** X8. When opening the session throws, the error is that of the
    browser launch, of [newContext] or of [newPage], never that of
    restoring the saved cookies, and the persisted documents are as
    they were. *)
Theorem restoring_cookies_is_not_fatal (domain : string) (s s' : Sys)
    (msg : string) :
  openSession domain s = Throws msg s' ->
  files s' = files s /\
  exists w,
    browser_launch w = Threw msg (world s') \/
    browser_newContext w = Threw msg (world s') \/
    context_newPage w = Threw msg (world s').
Proof.
  intros Hthrow. split.
  { pose proof (keepsFiles_openSession domain s) as Hk.
    by rewrite Hthrow in Hk. }
  revert Hthrow. unfold openSession, mbind, M_bind, loadCookies, platform.
  destruct (browser_launch (world s)) as [[] w1|m1 w1] eqn:Hlaunch;
    cbn [world files]; [|intros [= <- <-]; eauto].
  destruct (browser_newContext w1) as [[] w2|m2 w2] eqn:Hctx;
    cbn [world files]; [|intros [= <- <-]; eauto].
  destruct (0 <? length _)%nat.
  - unfold try_catch.
    destruct (context_addCookies _ _) as [[] w3|m3 w3];
      unfold mret, M_ret; cbn [world files];
      (destruct (context_newPage w3) as [[] w4|m4 w4] eqn:Hpage;
       [discriminate | intros [= <- <-]; eauto]).
  - unfold mret, M_ret; cbn [world files].
    destruct (context_newPage w2) as [[] w4|m4 w4] eqn:Hpage;
      [discriminate | intros [= <- <-]; eauto].
Qed.

(** *** Monitoring *)

Lemma stats_lookup (today : string) (limits : gmap string RateEntry)
    (domains : list string) (acc : gmap string DomainStats) (d : string) :
  foldl (fun rateLimits domain =>
           <[domain := domainStats today limits domain]> rateLimits)
        acc domains !! d
  = if bool_decide (d ∈ domains) then Some (domainStats today limits d)
    else acc !! d.
Proof.
  revert acc. induction domains as [|x rest IH]; intros acc; cbn [foldl].
  - by rewrite bool_decide_eq_false_2 by apply not_elem_of_nil.
  - rewrite IH. destruct (decide (d ∈ rest)) as [Hin|Hout].
    + rewrite !bool_decide_eq_true_2; [done | by right | done].
    + rewrite (bool_decide_eq_false_2 _ Hout).
      destruct (decide (d = x)) as [->|Hne].
      * rewrite lookup_insert_eq. by rewrite bool_decide_eq_true_2 by left.
      * rewrite lookup_insert_ne by done.
        rewrite bool_decide_eq_false_2; [done |].
        intros [?|?]%elem_of_cons; done.
Qed.

(** X10. [getPlaywrightStats] reports one entry for each domain of
    the allowlist and none for any other key of the rate-limit
    document: the entry gives the sessions counted today under that
    domain and the remaining count that [getRateLimitStatus] gives,
    and the two add up to ten. *)
Theorem stats_report_allowlisted_keys_only (s : Sys) (domain : string) :
  (domain ∈ PLAYWRIGHT_ALLOWLIST ->
   exists st,
     stats_rateLimits (getPlaywrightStats s) !! domain = Some st /\
     used st = usedOn (getTodayString (world s)) domain (files s) /\
     remaining st = (getRateLimitStatus domain s).1 /\
     used st + remaining st = MAX_RUNS_PER_DOMAIN_PER_DAY) /\
  (domain ∉ PLAYWRIGHT_ALLOWLIST ->
   stats_rateLimits (getPlaywrightStats s) !! domain = None).
Proof.
  unfold getPlaywrightStats. cbn [stats_rateLimits]. rewrite stats_lookup.
  split; intros Hd.
  - rewrite (bool_decide_eq_true_2 _ Hd). eexists. split; [reflexivity |].
    cbn [domainStats used remaining]. rewrite getRateLimitStatus_usedOn.
    unfold usedOn. cbn [fst]. repeat split. lia.
  - by rewrite (bool_decide_eq_false_2 _ Hd).
Qed.

End Calls.

Import Playwright.Scripted.

Lemma call_without_session_changes_nothing_witness :
  usedPlaywright (playwrightFetchRSS feedUrl (Some plainResponse) served).1
    ≠ Some true /\
  (playwrightFetchRSS feedUrl (Some plainResponse) served).2 = served.
Proof.
  assert (usedPlaywright (playwrightFetchRSS feedUrl (Some plainResponse) served).1
          ≠ Some true) as Hno by (vm_compute; discriminate).
  split; [exact Hno |].
  exact (proj1 (call_without_session_changes_nothing feedUrl
                  (Some plainResponse) served Hno)).
Defined.

Lemma unparsable_url_is_rejected_witness :
  Scripted.hostname schemelessUrl = None /\
  playwrightFetchRSS schemelessUrl None served
    = (rejected "Domain  not in Playwright allowlist", served).
Proof.
  split; [reflexivity |].
  exact (unparsable_url_is_rejected schemelessUrl None served eq_refl).
Defined.


Lemma restoring_cookies_is_not_fatal_witness :
  @openSession noBrowser "connectcre.com" unlaunched
    = Throws launchError unlaunched /\
  exists w,
    @browser_launch noBrowser w = Threw launchError (@world noBrowser unlaunched) \/
    @browser_newContext noBrowser w = Threw launchError (@world noBrowser unlaunched) \/
    @context_newPage noBrowser w = Threw launchError (@world noBrowser unlaunched).
Proof.
  split; [reflexivity |].
  exact (proj2 (@restoring_cookies_is_not_fatal noBrowser "connectcre.com"
                  unlaunched unlaunched launchError eq_refl)).
Defined.

End BypassFacts.

(** ** Fetch stage: breaker, results and item store *)

Module BreakerFacts.

Import Fetcher FetcherSamples BreakerSamples FetcherRuns.

Section Breaker.

Variable toISOString : Z -> string.

(** X11. [getBlockedFeeds] lists exactly the feeds whose breaker
    entry is blocked beyond the current time: an element is listed if
    and only if the breaker holds, under its URL, a state whose
    [blockedUntil] lies after now, and it then carries the last error
    of that state (or ['Unknown']), its [blockedUntil] and its 403
    preview. *)
Theorem blocked_feeds_listed (now : Z) (st : State) (b : BlockedFeed) :
  b ∈ getBlockedFeeds now st <->
  exists state,
    circuitBreaker st !! blocked_url b = Some state /\
    now < blockedUntil state /\
    reason b = or_default (lastError state) "Unknown" /\
    blocked_until b = blockedUntil state /\
    preview b = last403Preview state.
Proof.
  unfold getBlockedFeeds. rewrite list_elem_of_omap. split.
  - intros ([url state] & Hin & Hb). apply elem_of_map_to_list in Hin.
    destruct (now <? blockedUntil state) eqn:Hlt; [|discriminate].
    injection Hb as <-. cbn. exists state.
    apply Z.ltb_lt in Hlt. by repeat split.
  - intros (state & Hlook & Hlt & Hr & Hu & Hp).
    exists (blocked_url b, state). split; [by apply elem_of_map_to_list |].
    rewrite (proj2 (Z.ltb_lt _ _) Hlt). destruct b; cbn in *. by subst.
Qed.

(** *** Failures in a row *)

Lemma handleResult_failure (startTime now : Z) (st : State)
    (pipelineResult : PipelineResult) (message : string) :
  error pipelineResult = Some message ->
  default [] (articles pipelineResult) = [] ->
  (handleResult toISOString startTime now st pipelineResult).1
    = recordFailure toISOString now pipelineResult message st.
Proof.
  intros Herr Hnone. unfold handleResult. rewrite Herr, Hnone. reflexivity.
Qed.

Lemma recordFailure_lookup (now : Z) (pipelineResult : PipelineResult)
    (message : string) (st : State) :
  let old := default {| failureCount := 0; blockedUntil := 0;
                        lastError := None; last403Preview := None |}
                     (circuitBreaker st !! feed_url (feed pipelineResult)) in
  circuitBreaker (recordFailure toISOString now pipelineResult message st)
    !! feed_url (feed pipelineResult)
  = Some {| failureCount := failureCount old + 1;
            blockedUntil :=
              if MAX_FAILURES_BEFORE_BLOCK <=? failureCount old + 1
              then now + BLOCKED_COOLDOWN_MS else blockedUntil old;
            lastError := Some message;
            last403Preview := last403Preview old |}.
Proof. cbn zeta. unfold recordFailure. cbn [circuitBreaker]. apply lookup_insert_eq. Qed.

(** X12. Failures in a row are counted: for a feed that has no
    breaker entry, after n + 1 successive runs in each of which the
    pipeline reports an error and no article, the entry counts n + 1
    failures and holds the last error; it is blocked for 24 hours from
    the time of the last run once the count has reached three, and not
    blocked before. *)
Theorem failures_in_a_row (url : string) (runs : list (Z * PipelineResult))
    (now : Z) (last : PipelineResult) (st : State) :
  circuitBreaker st !! url = None ->
  Forall (fun run => failedFor url run.2) runs ->
  failedFor url last ->
  exists cb,
    circuitBreaker (handleRuns toISOString (runs ++ [(now, last)]) st) !! url
      = Some cb /\
    failureCount cb = Z.of_nat (length runs) + 1 /\
    lastError cb = error last /\
    blockedUntil cb =
      if MAX_FAILURES_BEFORE_BLOCK <=? Z.of_nat (length runs) + 1
      then now + BLOCKED_COOLDOWN_MS else 0.
Proof.
  intros Hfresh Hruns. revert now last.
  induction runs as [|run runs IH] using rev_ind;
    intros now last (Hurl & [message Herr] & Hnone).
  - cbn [app handleRuns foldl fst snd].
    rewrite (handleResult_failure _ _ _ _ _ Herr Hnone).
    pose proof (recordFailure_lookup now last message st) as Hl.
    cbn zeta in Hl. rewrite Hurl in Hl. rewrite Hfresh in Hl.
    eexists. split; [exact Hl |]. cbn. by rewrite Herr.
  - destruct run as [t pr].
    apply Forall_app in Hruns as [Hruns Hrun].
    rewrite Forall_singleton in Hrun. cbn [snd] in Hrun.
    destruct (IH Hruns t pr Hrun) as (cb & Hcb & Hcount & _ & Hblocked).
    unfold handleRuns in *. rewrite foldl_snoc. cbn [fst snd].
    rewrite (handleResult_failure _ _ _ _ _ Herr Hnone).
    pose proof (recordFailure_lookup now last message
                  (foldl (fun st run =>
                     (handleResult toISOString run.1 run.1 st run.2).1)
                     st (runs ++ [(t, pr)]))) as Hl.
    cbn zeta in Hl. rewrite Hurl in Hl. rewrite Hcb in Hl.
    cbn [default from_option Datatypes.id] in Hl.
    eexists. split; [exact Hl |].
    cbn [failureCount lastError blockedUntil].
    rewrite length_app, Hcount. cbn [length].
    replace (Z.of_nat (length runs + 1)) with (Z.of_nat (length runs) + 1) by lia.
    split; [done |]. split; [by rewrite Herr |].
    rewrite Hblocked. unfold MAX_FAILURES_BEFORE_BLOCK.
    repeat case_match; try done; lia.
Qed.

(** X13. Feeds do not interfere: handling the pipeline result of one
    feed leaves the breaker entry and the statistics of every other
    URL as they were. *)
Theorem feeds_do_not_interfere (startTime now : Z) (st : State)
    (pipelineResult : PipelineResult) (other : string) :
  other ≠ feed_url (feed pipelineResult) ->
  let st' := (handleResult toISOString startTime now st pipelineResult).1 in
  circuitBreaker st' !! other = circuitBreaker st !! other /\
  feedStats st' !! other = feedStats st !! other.
Proof.
  intros Hne. cbn zeta. unfold handleResult. cbn [fst].
  set (arts := default [] (articles pipelineResult)).
  set (n := Z.of_nat (length arts)).
  assert (forall st0,
    circuitBreaker (foldl (storeArticle toISOString now pipelineResult n) st0 arts)
      !! other = circuitBreaker st0 !! other /\
    feedStats (foldl (storeArticle toISOString now pipelineResult n) st0 arts)
      !! other = feedStats st0 !! other) as Hstore.
  { clearbody arts n. induction arts as [|a rest IH]; intros st0; [done |].
    cbn [foldl]. destruct (IH (storeArticle toISOString now pipelineResult n st0 a))
      as [-> ->].
    unfold storeArticle. cbn [circuitBreaker feedStats].
    rewrite (lookup_insert_ne (feedStats st0)) by done.
    split; [|done]. case_match; [by rewrite lookup_insert_ne | done]. }
  destruct (Hstore st) as [Hcb Hfs].
  destruct (error pipelineResult) as [message|]; [|done].
  unfold recordFailure. cbn [circuitBreaker feedStats].
  by rewrite !lookup_insert_ne.
Qed.

(** *** Results *)

Lemma handleResult_result_state (startTime now : Z) (st st' : State)
    (pipelineResult : PipelineResult) :
  (handleResult toISOString startTime now st pipelineResult).2
  = (handleResult toISOString startTime now st' pipelineResult).2.
Proof. reflexivity. Qed.

Lemma handleResults_results (startTime now : Z) (st : State)
    (pipelineResults : list PipelineResult) :
  (handleResults toISOString startTime now st pipelineResults).2
  = (fun pipelineResult =>
       (handleResult toISOString startTime now initial pipelineResult).2)
    <$> pipelineResults.
Proof.
  unfold handleResults.
  assert (forall acc,
    (foldl (fun acc pipelineResult =>
              let '(st', result) :=
                handleResult toISOString startTime now acc.1 pipelineResult in
              (st', acc.2 ++ [result])) acc pipelineResults).2
    = acc.2 ++ ((fun pipelineResult =>
         (handleResult toISOString startTime now initial pipelineResult).2)
        <$> pipelineResults)) as Hgen.
  { induction pipelineResults as [|pr rest IH]; intros acc; cbn [foldl fmap list_fmap].
    - by rewrite app_nil_r.
    - rewrite IH.
      destruct (handleResult toISOString startTime now acc.1 pr) as [st' r] eqn:Hr.
      cbn [snd]. rewrite <- app_assoc. cbn [app]. do 2 f_equal.
      rewrite (handleResult_result_state _ _ initial acc.1). by rewrite Hr. }
  by rewrite Hgen.
Qed.

(** The results of the loop, feed by feed. *)
Lemma handleResults_Forall2 (startTime now : Z) (st : State)
    (pipelineResults : list PipelineResult) :
  Forall2 (fun pipelineResult result =>
             meta_feed (meta result) = feed_name (feed pipelineResult) /\
             result_articles result = Some (default [] (articles pipelineResult)) /\
             kept (meta result)
               = Z.of_nat (length (default [] (articles pipelineResult))) /\
             fetchedRaw (meta result) = default 0 (rawCount pipelineResult) /\
             filteredOut (meta result)
               = fetchedRaw (meta result) - kept (meta result) /\
             result_error result = error pipelineResult /\
             (result_status result = "error" <-> is_Some (error pipelineResult)) /\
             (result_status result = "ok" <-> error pipelineResult = None))
          pipelineResults
          (handleResults toISOString startTime now st pipelineResults).2.
Proof.
  rewrite handleResults_results. apply Forall2_fmap_r, Forall_Forall2_diag.
  apply Forall_forall. intros pr _. unfold handleResult. cbn.
  repeat split; try done; destruct (error pr); try done;
    try (intros [? [=]]); eauto.
Qed.

(** X14. [fetchAllRSSArticles] returns, after one result for the manual
    articles when there are any, one result for each result of the
    pipeline on the enabled feeds, in order and whatever the state of
    the breaker: each names its feed, carries the kept articles, counts
    them, reports the raw count and the difference as filtered out, and
    has status ['error'] exactly when the pipeline reported an error
    for the feed, ['ok'] otherwise.  The result for the manual
    articles is named ['Manual Articles'], has status ['ok'] and counts
    every manual article as fetched and kept. *)
Theorem one_result_per_feed
    (processFeedsFullPipeline : list FeedConfig -> list PipelineResult)
    (RSS_FEEDS : list FeedConfig) (manualArticles : list NormalizedItem)
    (startTime now : Z) (st : State) :
  exists manual fromFeeds,
    (fetchAllRSSArticles toISOString processFeedsFullPipeline RSS_FEEDS
       manualArticles startTime now st).2 = manual ++ fromFeeds /\
    (manualArticles = [] -> manual = []) /\
    (manualArticles ≠ [] ->
     exists result,
       manual = [result] /\
       result_status result = "ok" /\
       result_error result = None /\
       result_articles result = Some manualArticles /\
       meta_feed (meta result) = "Manual Articles" /\
       fetchedRaw (meta result) = Z.of_nat (length manualArticles) /\
       kept (meta result) = Z.of_nat (length manualArticles) /\
       filteredOut (meta result) = 0) /\
    Forall2 (fun pipelineResult result =>
               meta_feed (meta result) = feed_name (feed pipelineResult) /\
               result_articles result
                 = Some (default [] (articles pipelineResult)) /\
               kept (meta result)
                 = Z.of_nat (length (default [] (articles pipelineResult))) /\
               fetchedRaw (meta result) = default 0 (rawCount pipelineResult) /\
               filteredOut (meta result)
                 = fetchedRaw (meta result) - kept (meta result) /\
               result_error result = error pipelineResult /\
               (result_status result = "error"
                <-> is_Some (error pipelineResult)) /\
               (result_status result = "ok" <-> error pipelineResult = None))
            (processFeedsFullPipeline (enabledFeeds RSS_FEEDS))
            fromFeeds.
Proof.
  pose proof (handleResults_Forall2 startTime now st
                (processFeedsFullPipeline (enabledFeeds RSS_FEEDS))) as Hfeeds.
  unfold fetchAllRSSArticles.
  destruct (handleResults toISOString startTime now st
              (processFeedsFullPipeline (enabledFeeds RSS_FEEDS)))
    as [st' results].
  cbn [snd] in *. destruct manualArticles as [|a rest].
  - exists [], results. by repeat split.
  - eexists [_], results. cbn [length Nat.ltb Nat.leb app].
    split; [reflexivity |]. split; [done |]. split; [|exact Hfeeds].
    intros _. eexists. by repeat split.
Qed.

(** *** The item store *)

Lemma storeArticles_itemStore (now : Z) (pipelineResult : PipelineResult)
    (n : Z) (kept : list NormalizedItem) (st : State) :
  itemStore (foldl (storeArticle toISOString now pipelineResult n) st kept)
  = foldl (fun store article => <[id article := article]> store)
          (itemStore st) kept.
Proof.
  revert st. induction kept as [|a rest IH]; intros st; [done |].
  cbn [foldl]. by rewrite IH.
Qed.

Lemma handleResult_itemStore (startTime now : Z) (st : State)
    (pipelineResult : PipelineResult) :
  itemStore (handleResult toISOString startTime now st pipelineResult).1
  = foldl (fun store article => <[id article := article]> store)
          (itemStore st) (default [] (articles pipelineResult)).
Proof.
  unfold handleResult. cbn [fst].
  destruct (error pipelineResult); cbn [recordFailure itemStore];
    apply storeArticles_itemStore.
Qed.

Lemma insert_all_lookup (kept : list NormalizedItem)
    (store : gmap string NormalizedItem) (k : string) :
  (k ∉ id <$> kept ->
   foldl (fun store article => <[id article := article]> store) store kept !! k
   = store !! k) /\
  (k ∈ id <$> kept ->
   exists article,
     article ∈ kept /\ id article = k /\
     foldl (fun store article => <[id article := article]> store) store kept !! k
     = Some article).
Proof.
  revert store. induction kept as [|a rest IH]; intros store.
  - split; [done | by intros ?%elem_of_nil].
  - cbn [foldl fmap list_fmap]. destruct (IH (<[id a := a]> store)) as [Hout Hin].
    destruct (decide (k ∈ id <$> rest)) as [Hrest|Hrest].
    + split; [intros Hno; exfalso; apply Hno; by right |].
      intros _. destruct (Hin Hrest) as (b & Hb & Hid & Hl).
      exists b. split; [by right | by split].
    + split.
      * intros Hno. rewrite (Hout Hrest). apply lookup_insert_ne.
        intros Heq. apply Hno. rewrite <- Heq. by left.
      * intros [Heq|Hin']%elem_of_cons; [|done].
        exists a. split; [by left |]. split; [done |].
        rewrite (Hout Hrest), Heq. apply lookup_insert_eq.
Qed.

(** X15. Kept articles are stored by identifier: after a pipeline
    result is handled, the store maps the identifier of every kept
    article to a kept article with that identifier, to the article
    itself when the kept identifiers are distinct, and every other
    identifier to what it mapped to before. *)
Theorem kept_articles_are_stored (startTime now : Z) (st : State)
    (pipelineResult : PipelineResult) :
  let kept := default [] (articles pipelineResult) in
  let store := itemStore (handleResult toISOString startTime now st pipelineResult).1 in
  (forall article, article ∈ kept ->
     exists stored, stored ∈ kept /\ id stored = id article /\
                    store !! id article = Some stored) /\
  (NoDup (id <$> kept) ->
   forall article, article ∈ kept -> store !! id article = Some article) /\
  (forall k, k ∉ id <$> kept -> store !! k = itemStore st !! k).
Proof.
  cbn zeta. rewrite handleResult_itemStore.
  set (kept := default [] (articles pipelineResult)).
  split; [|split].
  - intros a Ha.
    destruct (proj2 (insert_all_lookup kept (itemStore st) (id a)))
      as (b & Hb & Hid & Hl); [by apply list_elem_of_fmap_2 |].
    by exists b.
  - intros Hnodup a Ha.
    destruct (proj2 (insert_all_lookup kept (itemStore st) (id a)))
      as (b & Hb & Hid & Hl); [by apply list_elem_of_fmap_2 |].
    rewrite Hl. f_equal.
    apply (NoDup_fmap_1 id) in Hnodup as Hnd.
    apply list_elem_of_lookup in Ha as [i Hi].
    apply list_elem_of_lookup in Hb as [j Hj].
    assert (i = j) as ->.
    { apply (NoDup_lookup (id <$> kept) i j (id a)); [done | |].
      - by rewrite list_lookup_fmap, Hi.
      - by rewrite list_lookup_fmap, Hj, <- Hid. }
    congruence.
  - intros k Hk. by apply insert_all_lookup.
Qed.

End Breaker.

Lemma failures_in_a_row_witness :
  exists cb,
    circuitBreaker (handleRuns stamp ([(0, outage); (1, outage)] ++ [(2, outage)])
                      initial) !! feed_url tradeFeed = Some cb /\
    failureCount cb = 3 /\
    blockedUntil cb = 2 + BLOCKED_COOLDOWN_MS.
Proof.
  assert (failedFor (feed_url tradeFeed) outage) as Hfailed
    by (split; [reflexivity | split; [by eexists | reflexivity]]).
  destruct (failures_in_a_row stamp (feed_url tradeFeed)
              [(0, outage); (1, outage)] 2 outage initial)
    as (cb & Hcb & Hcount & _ & Hblocked).
  - reflexivity.
  - do 2 (apply List.Forall_cons; [exact Hfailed |]). apply List.Forall_nil.
  - exact Hfailed.
  - exists cb. split; [exact Hcb |]. split; [exact Hcount | exact Hblocked].
Defined.

Lemma feeds_do_not_interfere_witness :
  otherFeedUrl ≠ feed_url (feed outage) /\
  circuitBreaker (handleResult stamp 0 0 initial outage).1 !! otherFeedUrl
    = circuitBreaker initial !! otherFeedUrl.
Proof.
  assert (otherFeedUrl ≠ feed_url (feed outage)) as Hne by discriminate.
  split; [exact Hne |].
  exact (proj1 (feeds_do_not_interfere stamp 0 0 initial outage otherFeedUrl Hne)).
Defined.

End BreakerFacts.

(** ** Static build: the merged list *)

Module MergeFacts.

Import StaticBuild StaticBuildSamples StaticBuildFacts.

(** X16. When the published articles have distinct identifiers and so
    have the freshly fetched ones, the merged list has distinct
    identifiers. *)
Theorem merged_identifiers_stay_unique
    (existingArticles filtered : list NormalizedItem) :
  NoDup (id <$> existingArticles) ->
  NoDup (id <$> filtered) ->
  NoDup (id <$> mergedArticles existingArticles filtered).
Proof.
  intros Hexisting Hfiltered. unfold mergedArticles.
  rewrite fmap_app. apply NoDup_app. split; [|split; [|done]].
  - eapply sublist_NoDup; [exact Hfiltered | apply fmap_sublist, newItems_sublist].
  - intros k (item & -> & Hitem)%list_elem_of_fmap (e & Hid & He)%list_elem_of_fmap.
    apply elem_of_newItems in Hitem as [_ Hnew]. apply Hnew.
    apply elem_of_existingGuids. by exists e.
Qed.

Lemma withId_app (k : string) (l1 l2 : list NormalizedItem) :
  withId k (l1 ++ l2) = withId k l1 ++ withId k l2.
Proof. unfold withId. apply List.filter_app. Qed.

Lemma withId_unknown (existingArticles : list NormalizedItem) (k : string) :
  k ∉ existingGuids existingArticles -> withId k existingArticles = [].
Proof.
  intros Hk. unfold withId.
  induction existingArticles as [|e rest IH]; [done |]. cbn [List.filter].
  assert (id e ≠ k) as Hne.
  { intros <-. apply Hk, elem_of_existingGuids. exists e. by split; [left |]. }
  rewrite (bool_decide_eq_false_2 _ Hne). apply IH.
  intros Hin. apply Hk. apply elem_of_existingGuids.
  apply elem_of_existingGuids in Hin as (e' & He' & Hid). exists e'.
  by split; [right |].
Qed.

Lemma withId_newItems_unknown (existingArticles filtered : list NormalizedItem)
    (k : string) :
  k ∉ existingGuids existingArticles ->
  withId k (newItems existingArticles filtered) = withId k filtered.
Proof.
  intros Hk. unfold withId, newItems.
  induction filtered as [|item rest IH]; [done |]. cbn [List.filter].
  destruct (decide (id item = k)) as [Heq|Hne].
  - assert (id item ∉ existingGuids existingArticles) as Hout by (by rewrite Heq).
    rewrite (bool_decide_eq_false_2 _ Hout).
    cbn [negb List.filter]. rewrite (bool_decide_eq_true_2 _ Heq). by rewrite IH.
  - rewrite (bool_decide_eq_false_2 _ Hne).
    destruct (negb _); [|done]. cbn [List.filter].
    by rewrite (bool_decide_eq_false_2 _ Hne).
Qed.

(** X17. Deduplication is against the published feed only: under an
    identifier that the published feed does not hold, the merged list
    has every fetched copy, in the order fetched; two results of one
    run with the same new identifier are both kept. *)
Theorem copies_within_a_run_are_all_kept
    (existingArticles filtered : list NormalizedItem) (k : string) :
  k ∉ existingGuids existingArticles ->
  withId k (mergedArticles existingArticles filtered) = withId k filtered.
Proof.
  intros Hk. unfold mergedArticles.
  rewrite withId_app.
  rewrite (withId_newItems_unknown _ _ _ Hk), (withId_unknown _ _ Hk).
  apply app_nil_r.
Qed.

Section Build.

Variable shouldRejectUrl : string -> bool.
Variable isAllowedLink : string -> bool.

Lemma elem_of_allItems (results : list FetchResult) (item : NormalizedItem) :
  item ∈ allItems results <->
  exists result kept,
    result ∈ results /\ result_status result = "ok" /\
    result_articles result = Some kept /\ item ∈ kept.
Proof.
  unfold allItems. rewrite list_elem_of_In, in_concat. split.
  - intros (kept & Hkept & Hitem).
    apply list_elem_of_In, list_elem_of_omap in Hkept as (result & Hr & Hsome).
    case_bool_decide as Hok; [|discriminate].
    exists result, kept. by rewrite <- list_elem_of_In in Hitem.
  - intros (result & kept & Hr & Hok & Hsome & Hitem).
    exists kept. split; [|by apply list_elem_of_In].
    apply list_elem_of_In, list_elem_of_omap. exists result.
    split; [done |]. by rewrite (bool_decide_eq_true_2 _ Hok).
Qed.

Lemma lightFilter_spec (item : NormalizedItem) :
  lightFilter shouldRejectUrl isAllowedLink item = true <->
  nonempty (link item) = true /\ nonempty (title item) = true /\
  shouldRejectUrl (link item) = false /\ isAllowedLink (link item) = true.
Proof.
  unfold lightFilter.
  destruct (nonempty (link item)), (nonempty (title item)),
    (shouldRejectUrl (link item)), (isAllowedLink (link item)); cbn; intuition congruence.
Qed.

Lemma elem_of_filteredNewItems (results : list FetchResult)
    (item : NormalizedItem) :
  item ∈ filteredNewItems shouldRejectUrl isAllowedLink results <->
  item ∈ allItems results /\
  lightFilter shouldRejectUrl isAllowedLink item = true.
Proof.
  unfold filteredNewItems. by rewrite !list_elem_of_In, filter_In.
Qed.

(** X18. What steps 1 to 3 of [buildStaticRSS] hand on: an article is
    in the merged list if and only if it was already published, or it
    is in the articles of a result with status ['ok'], has a link and a
    title, its link is not rejected and is allowed, and no published
    article has its identifier. *)
Theorem what_the_build_publishes (existingArticles : list NormalizedItem)
    (results : list FetchResult) (item : NormalizedItem) :
  item ∈ buildMerged shouldRejectUrl isAllowedLink existingArticles results <->
  item ∈ existingArticles \/
  ((exists result kept,
      result ∈ results /\ result_status result = "ok" /\
      result_articles result = Some kept /\ item ∈ kept) /\
   nonempty (link item) = true /\ nonempty (title item) = true /\
   shouldRejectUrl (link item) = false /\ isAllowedLink (link item) = true /\
   forall e, e ∈ existingArticles -> id e ≠ id item).
Proof.
  unfold buildMerged, mergedArticles.
  rewrite elem_of_app, elem_of_newItems, elem_of_existingGuids.
  rewrite elem_of_filteredNewItems, elem_of_allItems, lightFilter_spec.
  split.
  - intros [[[Hfrom Hlight] Hnew]|Hold]; [right | by left].
    split; [done |]. destruct Hlight as (? & ? & ? & ?).
    repeat split; try done. intros e He Hid. apply Hnew. by exists e.
  - intros [Hold|(Hfrom & H1 & H2 & H3 & H4 & Hnew)]; [by right | left].
    split; [by split |]. intros (e & He & Hid). by apply (Hnew e).
Qed.

End Build.

Lemma merged_identifiers_stay_unique_witness :
  NoDup (id <$> mergedArticles [publishedArticle] [refetchedArticle; freshArticle]).
Proof.
  apply merged_identifiers_stay_unique.
  - apply NoDup_singleton.
  - apply NoDup_cons. split; [|apply NoDup_singleton].
    intros Hin. apply list_elem_of_singleton in Hin. discriminate Hin.
Defined.

Lemma copies_within_a_run_are_all_kept_witness :
  withId (id freshArticle)
         (mergedArticles [publishedArticle] [freshArticle; freshArticle])
  = [freshArticle; freshArticle].
Proof.
  apply (copies_within_a_run_are_all_kept [publishedArticle]
           [freshArticle; freshArticle] (id freshArticle)).
  intros (e & He & Hid)%elem_of_existingGuids.
  apply list_elem_of_singleton in He. subst e. discriminate Hid.
Defined.

End MergeFacts.

(** ** UTF-16 code units *)

Module JsUtf16Facts.

Import JsUtf16.

(** The kinds of byte: a character of one code unit that is one byte,
    a continuation byte, the lead of a character of one code unit in
    two or in three bytes, the lead of a character of two code
    units. *)
Lemma kind (c : ascii) :
  (byte c <? 128)%N = true \/
  ((byte c <? 128)%N = false /\ (byte c <? 192)%N = true) \/
  ((byte c <? 128)%N = false /\ (byte c <? 192)%N = false /\
   (byte c <? 224)%N = true /\ (byte c <? 240)%N = true) \/
  ((byte c <? 128)%N = false /\ (byte c <? 192)%N = false /\
   (byte c <? 224)%N = false /\ (byte c <? 240)%N = true) \/
  ((byte c <? 128)%N = false /\ (byte c <? 192)%N = false /\
   (byte c <? 224)%N = false /\ (byte c <? 240)%N = false).
Proof.
  destruct (byte c <? 128)%N eqn:H1; [by left |]. right.
  destruct (byte c <? 192)%N eqn:H2; [by left |]. right.
  destruct (byte c <? 224)%N eqn:H3.
  { left. repeat split. apply N.ltb_lt in H3. apply N.ltb_lt. lia. }
  right. destruct (byte c <? 240)%N eqn:H4; [by left | by right].
Qed.

Lemma isContinuation_lead (c : ascii) :
  (byte c <? 192)%N = false -> isContinuation c = false.
Proof. intros H. unfold isContinuation. rewrite H. apply andb_false_r. Qed.

Lemma isContinuation_ascii (c : ascii) :
  (byte c <? 128)%N = true -> isContinuation c = false.
Proof.
  intros H%N.ltb_lt. unfold isContinuation.
  assert ((128 <=? byte c)%N = false) as -> by (apply N.leb_gt; lia). done.
Qed.

Lemma isContinuation_continuation (c : ascii) :
  (byte c <? 128)%N = false -> (byte c <? 192)%N = true -> isContinuation c = true.
Proof.
  intros H1%N.ltb_ge H2. unfold isContinuation.
  rewrite H2. by rewrite (proj2 (N.leb_le _ _) H1).
Qed.

Lemma byte_ascii_of_N (n : N) : (n < 256)%N -> byte (ascii_of_N n) = n.
Proof. intros Hn. unfold byte. by apply N_ascii_embedding. Qed.

Lemma length_cons (c : ascii) (rest : string) :
  length (String c rest) = (units c + length rest)%nat.
Proof.
  unfold length, units. cbn [codeUnits]. cbn zeta.
  destruct (kind c)
    as [H1|[[H1 H2]|[(H1 & H2 & H3 & H4)|[(H1 & H2 & H3 & H4)|(H1 & H2 & H3 & H4)]]]];
    rewrite ?H1, ?H2, ?H3, ?H4; reflexivity.
Qed.

Lemma continuation_bound (i : nat) (s : string) : (continuation i s < 64)%N.
Proof.
  revert i. induction s as [|c rest IH]; intros i; cbn [continuation]; [lia |].
  destruct (isContinuation c); [| lia].
  destruct i; [| apply IH]. apply N.mod_lt. lia.
Qed.

Lemma astral_bound (c : ascii) (rest : string) : (astral c rest / 1024 < 2048)%N.
Proof.
  unfold astral.
  pose proof (continuation_bound 0 rest). pose proof (continuation_bound 1 rest).
  pose proof (continuation_bound 2 rest).
  assert (byte c mod 8 < 8)%N by (apply N.mod_lt; lia).
  apply N.Div0.div_lt_upper_bound. lia.
Qed.

Lemma continuation_substring (i n : nat) (s : string) :
  continuation i (substring n s) = continuation i s.
Proof.
  revert i n. induction s as [|c rest IH]; intros i n; [done |].
  cbn [substring]. unfold units. cbn zeta.
  destruct (kind c)
    as [H1|[[H1 H2]|[(H1 & H2 & H3 & H4)|[(H1 & H2 & H3 & H4)|(H1 & H2 & H3 & H4)]]]];
    rewrite ?H1, ?H2, ?H3, ?H4.
  - destruct n; cbn [continuation]; by rewrite (isContinuation_ascii c H1).
  - cbn [continuation]. rewrite (isContinuation_continuation c H1 H2).
    destruct i; [done | apply IH].
  - destruct n; cbn [continuation]; by rewrite (isContinuation_lead c H2).
  - destruct n; cbn [continuation]; by rewrite (isContinuation_lead c H2).
  - destruct n as [|[|n]]; cbn [continuation]; rewrite (isContinuation_lead c H2); done.
Qed.

Lemma codeUnits_surrogate (w : N) :
  (w < 2048)%N ->
  codeUnits (String (ascii_of_N 237)
               (String (ascii_of_N (160 + w / 64))
                  (String (ascii_of_N (128 + w mod 64)) EmptyString)))
  = [(55296 + w)%N].
Proof.
  intros Hw.
  assert (w / 64 < 32)%N as Hhi by (apply N.Div0.div_lt_upper_bound; lia).
  assert (w mod 64 < 64)%N as Hlo by (apply N.mod_lt; lia).
  pose proof (N.div_mod w 64) as Hsplit.
  remember (w / 64)%N as hi eqn:Ehi. remember (w mod 64)%N as lo eqn:Elo.
  clear Ehi Elo.
  cbn [codeUnits continuation]. cbn zeta. unfold isContinuation.
  rewrite !byte_ascii_of_N by lia.
  assert ((160 + hi <? 128)%N = false) as -> by (apply N.ltb_ge; lia).
  assert ((160 + hi <? 192)%N = true) as -> by (apply N.ltb_lt; lia).
  assert ((128 <=? 160 + hi)%N = true) as -> by (apply N.leb_le; lia).
  assert ((128 + lo <? 128)%N = false) as -> by (apply N.ltb_ge; lia).
  assert ((128 + lo <? 192)%N = true) as -> by (apply N.ltb_lt; lia).
  assert ((128 <=? 128 + lo)%N = true) as -> by (apply N.leb_le; lia).
  cbn [andb N.ltb N.compare Pos.compare Pos.compare_cont].
  f_equal.
  assert (((160 + hi) mod 64 = 32 + hi)%N) as ->.
  { replace (160 + hi)%N with (32 + hi + 2 * 64)%N by lia.
    rewrite N.Div0.mod_add. apply N.mod_small. lia. }
  assert (((128 + lo) mod 64 = lo)%N) as ->.
  { replace (128 + lo)%N with (lo + 2 * 64)%N by lia.
    rewrite N.Div0.mod_add. apply N.mod_small. lia. }
  change (237 mod 16)%N with 13%N. lia.
Qed.

Lemma codeUnits_highSurrogate (c : ascii) (rest : string) :
  codeUnits (highSurrogate c rest) = [(55296 + astral c rest / 1024)%N].
Proof. apply codeUnits_surrogate, astral_bound. Qed.

(** [s.substring(0, n)] holds the first [n] code units of [s]. *)
Lemma codeUnits_substring (n : nat) (s : string) :
  codeUnits (substring n s) = take n (codeUnits s).
Proof.
  revert n. induction s as [|c rest IH]; intros n; [by destruct n |].
  cbn [substring]. unfold units. cbn [codeUnits]. cbn zeta.
  destruct (kind c)
    as [H1|[[H1 H2]|[(H1 & H2 & H3 & H4)|[(H1 & H2 & H3 & H4)|(H1 & H2 & H3 & H4)]]]];
    rewrite ?H1, ?H2, ?H3, ?H4.
  - destruct n; [done |]. cbn [codeUnits take]. cbn zeta. by rewrite H1, IH.
  - cbn [codeUnits]. cbn zeta. by rewrite H1, H2, IH.
  - destruct n; [done |]. cbn [codeUnits take]. cbn zeta.
    by rewrite H1, H2, H3, IH, continuation_substring.
  - destruct n; [done |]. cbn [codeUnits take]. cbn zeta.
    by rewrite H1, H2, H3, H4, IH, !continuation_substring.
  - destruct n as [|[|n]]; [done | by rewrite codeUnits_highSurrogate |].
    cbn [codeUnits take]. cbn zeta. rewrite H1, H2, H3, H4, IH.
    unfold astral. by rewrite !continuation_substring.
Qed.

Lemma length_substring (n : nat) (s : string) :
  length (substring n s) = Nat.min n (length s).
Proof. unfold length. by rewrite codeUnits_substring, length_take. Qed.

Lemma substring_all (n : nat) (s : string) :
  (length s <= n)%nat -> substring n s = s.
Proof.
  revert n. induction s as [|c rest IH]; intros n; [done |].
  rewrite length_cons. cbn [substring].
  destruct (units c) as [|[|u]]; intros Hle.
  - f_equal. apply IH. lia.
  - destruct n; [lia |]. f_equal. apply IH. lia.
  - destruct n as [|[|n]]; [lia | lia |]. f_equal. apply IH.
    unfold units in *. lia.
Qed.

Lemma continuation_append_dots (i : nat) (s : string) :
  continuation i (s +:+ "...") = continuation i s.
Proof.
  revert i. induction s as [|c rest IH]; intros i; [done |].
  rewrite app_cons. cbn [continuation].
  destruct (isContinuation c); [| done]. destruct i; [done | apply IH].
Qed.

Lemma codeUnits_append_dots (s : string) :
  codeUnits (s +:+ "...") = codeUnits s ++ codeUnits "...".
Proof.
  induction s as [|c rest IH]; [done |].
  rewrite app_cons. cbn [codeUnits]. cbn zeta.
  unfold astral. rewrite !continuation_append_dots, IH.
  destruct (kind c)
    as [H1|[[H1 H2]|[(H1 & H2 & H3 & H4)|[(H1 & H2 & H3 & H4)|(H1 & H2 & H3 & H4)]]]];
    by rewrite ?H1, ?H2, ?H3, ?H4.
Qed.

Lemma lexLe_refl (a : list N) : lexLe a a = true.
Proof. induction a as [|x a IH]; [done |]. cbn. by rewrite N.ltb_irrefl. Qed.

Lemma lexLe_trans (a b c : list N) :
  lexLe a b = true -> lexLe b c = true -> lexLe a c = true.
Proof.
  revert b c. induction a as [|x a IH]; intros [|y b] [|z c]; cbn; try done.
  destruct (N.ltb_spec x y), (N.ltb_spec y x), (N.ltb_spec y z), (N.ltb_spec z y),
    (N.ltb_spec x z), (N.ltb_spec z x); try done; try lia.
  apply IH.
Qed.

Lemma lexLe_total (a b : list N) : lexLe a b = true \/ lexLe b a = true.
Proof.
  revert b. induction a as [|x a IH]; intros [|y b]; cbn; auto.
  destruct (N.ltb_spec x y), (N.ltb_spec y x); auto; lia.
Qed.

Lemma lexLe_antisym (a b : list N) :
  lexLe a b = true -> lexLe b a = true -> a = b.
Proof.
  revert b. induction a as [|x a IH]; intros [|y b]; cbn; try done.
  destruct (N.ltb_spec x y), (N.ltb_spec y x); try done; try lia.
  intros Hab Hba. f_equal; [lia | by apply IH].
Qed.

(** The character U+1F600 takes two code units, and U+FF21 one, which is
    the larger: the order of the code units is not the order of the
    code points. *)
Example codeUnits_of_a_pair :
  codeUnits "😀" = [55357%N; 56832%N] /\ codeUnits "Ａ" = [65313%N] /\
  le "😀" "Ａ" = true /\ le "Ａ" "😀" = false.
Proof. by vm_compute. Qed.

(** A cut between the two code units of a character leaves the first. *)
Example substring_splits_a_pair :
  codeUnits (substring 2 "a😀b") = [97%N; 55357%N] /\
  substring 3 "a😀b" = "a😀" /\ length "ééé" = 3%nat.
Proof. by vm_compute. Qed.

End JsUtf16Facts.

(** ** JSON feed *)

Module JsonFeedFacts.

Import JsStringMatchFacts JsUtf16Facts JsonFeed JsonFeedSamples UtilsSamples.

Lemma feedAuthorName_nonempty (e : Entry) : nonempty (feedAuthorName e) = true.
Proof.
  unfold feedAuthorName.
  destruct (item_author e) as [[s|n]|]; cbn [negb nonempty];
    try by apply or_default_nonempty_default.
  destruct (nonempty s) eqn:Hs; cbn [negb]; [done|].
  by apply or_default_nonempty_default.
Qed.

Lemma categoryLabels_Some (c label : string) :
  categoryLabels c = Some label ->
  c ∈ ["relevant"; "transaction"; "availabilities"; "people"].
Proof.
  unfold categoryLabels. intros Hlabel.
  repeat match type of Hlabel with
  | context [String.eqb c ?k] =>
      destruct (String.eqb_spec c k) as [->|_]; [set_solver|]
  end.
  done.
Qed.

(** X19. What the front end reads back from the JSON feed: for an
    article written by [generateJSONFeed] and then normalised by
    [transformArticle], the link, the description and the publication
    date are those of the article (empty, empty and the time of the
    build when missing); source and author are both the author name of
    the feed item; and the identifier is that of the article or, when
    the article has none, a random number, the link not being used. *)
Theorem feed_item_read_back (env : Utils.Env) (now : string) (e : Entry) :
  nonempty now = true ->
  let a := Utils.transformArticle env (readItem (jsonItem now e)) in
  Utils.out_link a = or_default (item_link e) "" /\
  Utils.out_description a = or_default (item_description e) "" /\
  Utils.out_pubDate a = or_default (item_pubDate e) now /\
  Utils.out_source a = feedAuthorName e /\
  Utils.out_author a = Some (feedAuthorName e) /\
  Utils.out_id a = or_default (item_id e) (Utils.random env).
Proof.
  intros Hnow a. subst a.
  pose proof (feedAuthorName_nonempty e) as Hname.
  unfold Utils.transformArticle, Utils.authorName.
  cbn [readItem jsonItem Utils.out_link Utils.out_description Utils.out_pubDate
       Utils.out_source Utils.out_author Utils.out_id Utils.url Utils.link
       Utils.date_published Utils.pubDate Utils.content_text Utils.content_html
       Utils.description Utils.source Utils.publisher Utils.author Utils.id
       url date_published content_text content_html author_name id].
  repeat split.
  - unfold or_else, or_default, truthy. destruct (item_link e) as [l|]; [|done].
    by destruct (nonempty l) eqn:Hl; rewrite ?Hl.
  - unfold or_else, or_default, truthy. destruct (item_description e) as [l|]; [|done].
    by destruct (nonempty l) eqn:Hl; rewrite ?Hl.
  - pose proof (or_default_nonempty_default (item_pubDate e) now Hnow) as Hd.
    unfold or_else, truthy. rewrite Hd. by apply or_default_truthy.
  - rewrite (or_default_truthy (feedAuthorName e) "") by done.
    unfold or_else. cbn [truthy]. by apply or_default_truthy.
  - rewrite (or_default_truthy (feedAuthorName e) "") by done. by rewrite Hname.
  - unfold or_else, or_default, truthy. destruct (item_id e) as [l|]; [|done].
    by destruct (nonempty l) eqn:Hl; rewrite ?Hl.
Qed.

(** X20. The four categories of the classifier survive the passage
    through the JSON feed: when the category of the article (['relevant']
    when missing) has a label, [transformArticle] recovers that category
    from the label in the first tag. *)
Theorem known_category_read_back (env : Utils.Env) (now : string) (e : Entry) :
  let category := or_default (item_category e) "relevant" in
  is_Some (categoryLabels category) ->
  Utils.out_category (Utils.transformArticle env (readItem (jsonItem now e)))
  = category.
Proof.
  intros category [label Hlabel]. apply categoryLabels_Some in Hlabel.
  unfold Utils.transformArticle, Utils.categoryOf.
  cbn [Utils.out_category readItem jsonItem Utils.tags tags mbind option_bind head].
  fold category.
  repeat (apply elem_of_cons in Hlabel as [->|Hlabel]; [by vm_compute|]).
  by apply elem_of_nil in Hlabel.
Qed.

(** X21. The summary of a feed item is the description when that has
    at most 200 UTF-16 code units, the unit of [length] and
    [substring]; otherwise it is the first 200 code units followed by
    three dots, 203 code units in all. *)
Theorem summary_is_cut_at_200 (description : string) :
  ((JsUtf16.length description <= 200)%nat -> summaryOf description = description) /\
  ((200 < JsUtf16.length description)%nat ->
   summaryOf description = JsUtf16.substring 200 description +:+ "..." /\
   JsUtf16.codeUnits (summaryOf description)
     = take 200 (JsUtf16.codeUnits description) ++ JsUtf16.codeUnits "..." /\
   JsUtf16.length (summaryOf description) = 203%nat).
Proof.
  unfold summaryOf. split.
  - intros Hle. destruct description as [|c d]; [done|]. cbn [nonempty].
    rewrite substring_all by done.
    destruct (200 <? _)%nat eqn:Hlt; [apply Nat.ltb_lt in Hlt; lia|].
    apply append_nil_r.
  - intros Hlt. destruct description as [|c d]; [cbn in Hlt; lia|]. cbn [nonempty].
    apply Nat.ltb_lt in Hlt as Hlt'. rewrite Hlt'. split; [done|].
    rewrite codeUnits_append_dots, codeUnits_substring. split; [done |].
    unfold JsUtf16.length in *.
    rewrite codeUnits_append_dots, codeUnits_substring, length_app, length_take.
    change (List.length (JsUtf16.codeUnits "...")) with 3%nat. lia.
Qed.

(** A description of 150 accented letters is left whole; a cut that
    falls inside a character of two code units keeps the first of the
    two. *)
Example summary_counts_code_units :
  String.length accented = 300%nat /\ JsUtf16.length accented = 150%nat /\
  summaryOf accented = accented /\
  JsUtf16.length withEmoji = 202%nat /\
  drop 199 (JsUtf16.codeUnits (summaryOf withEmoji))
    = [55357%N; 46%N; 46%N; 46%N].
Proof. by vm_compute. Qed.

(** X22. An article that the next build takes from [feed.json] as an
    existing article and writes again keeps its identifier, title and
    image, and nothing else: its URL, content and summary are empty,
    both dates are the time of the new build, the author is ['Unknown']
    and the only tag is the label of the ['relevant'] category. *)
Theorem republished_article_loses_its_link (now1 now2 : string) (e : Entry) :
  let first := jsonItem now1 e in
  let second := jsonItem now2 (reload first) in
  (id second = id first /\ title second = title first /\
   image second = image first) /\
  url second = "" /\ content_html second = "" /\ content_text second = "" /\
  summary second = "" /\
  date_published second = now2 /\ date_modified second = now2 /\
  author_name second = "Unknown" /\
  tags second = [default "" (categoryLabels "relevant")].
Proof.
  cbn zeta. split; [|repeat (split; [reflexivity|]); reflexivity].
  split; [done|]. split.
  - cbn [jsonItem reload title item_title].
    apply or_default_truthy. by apply or_default_nonempty_default.
  - cbn [jsonItem reload image item_image item_imageUrl item_thumbnailUrl].
    set (img := or_else (or_else (item_image e) (item_imageUrl e)) (item_thumbnailUrl e)).
    destruct (truthy img) eqn:Himg.
    + unfold or_else. rewrite Himg. cbn [truthy]. rewrite Himg. by rewrite Himg.
    + done.
Qed.

Lemma feed_item_read_back_witness :
  nonempty buildTime = true /\
  Utils.out_link (Utils.transformArticle morning (readItem (jsonItem buildTime soldEntry)))
    = "https://example.com/a" /\
  Utils.out_source (Utils.transformArticle morning (readItem (jsonItem buildTime soldEntry)))
    = "Example".
Proof.
  split; [reflexivity |].
  destruct (feed_item_read_back morning buildTime soldEntry eq_refl)
    as (Hlink & _ & _ & Hsource & _).
  split; [exact Hlink | exact Hsource].
Defined.

Lemma known_category_read_back_witness :
  is_Some (categoryLabels "transaction") /\
  Utils.out_category
    (Utils.transformArticle morning (readItem (jsonItem buildTime soldEntry)))
  = "transaction".
Proof.
  assert (is_Some (categoryLabels "transaction")) as Hlabel by (by eexists).
  split; [exact Hlabel |].
  exact (known_category_read_back morning buildTime soldEntry Hlabel).
Defined.

End JsonFeedFacts.

(** ** Source list of the front end *)

Module SourcesFacts.

Import Utils Sources JsUtf16Facts.

Lemma stringLe_trans : Transitive stringLe.
Proof. intros a b c. apply lexLe_trans. Qed.

Lemma stringLe_total : Total stringLe.
Proof. intros a b. apply lexLe_total. Qed.

Lemma elem_of_distinct (seen values : list string) (v : string) :
  v ∈ distinct seen values <-> v ∈ values /\ v ∉ seen.
Proof.
  revert seen. induction values as [|w rest IH]; intros seen; cbn [distinct].
  - split; [by intros ?%elem_of_nil | by intros [?%elem_of_nil _]].
  - case_bool_decide as Hw.
    + rewrite IH, elem_of_cons. split; [tauto|].
      intros [[->|Hv] Hseen]; [done | tauto].
    + rewrite elem_of_cons, IH, !elem_of_cons.
      destruct (decide (v = w)) as [->|Hne]; tauto.
Qed.

Lemma NoDup_distinct (seen values : list string) : NoDup (distinct seen values).
Proof.
  revert seen. induction values as [|w rest IH]; intros seen; cbn [distinct].
  - constructor.
  - case_bool_decide as Hw; [apply IH|].
    constructor; [|apply IH].
    rewrite elem_of_distinct, elem_of_cons. tauto.
Qed.

Lemma sourceOf_Some (item : Item) (s : string) :
  sourceOf item = Some s <->
  nonempty s = true /\ or_else (source item) (publisher item) = Some s.
Proof.
  unfold sourceOf.
  destruct (or_else (source item) (publisher item)) as [v|] eqn:Hv; cbn [truthy].
  - destruct (nonempty v) eqn:Hn; split.
    + by intros [= <-].
    + by intros [_ ?].
    + done.
    + intros [Hs [= <-]]. congruence.
  - split; [done|]. by intros [_ ?].
Qed.

Lemma StronglySorted_lookup {A} (R : relation A) (l : list A) (i j : nat) (a b : A) :
  StronglySorted R l -> l !! i = Some a -> l !! j = Some b -> (i < j)%nat ->
  R a b.
Proof.
  intros Hsorted. revert i j. induction Hsorted as [|x l Hl IH Hall]; intros i j.
  - by rewrite lookup_nil.
  - destruct i as [|i], j as [|j]; try lia; cbn.
    + intros [= <-] Hb _. rewrite Forall_forall in Hall.
      apply Hall. by eapply list_elem_of_lookup_2.
    + intros Ha Hb Hlt. apply (IH i j); [done..|lia].
Qed.

(** The name that begins with a surrogate pair comes first, although
    its first character has the larger code point. *)
Example sources_in_code_unit_order :
  getUniqueSources SourcesSamples.mixedSources = ["😀 Daily"; "Ａ News"].
Proof. by vm_compute. Qed.

(** X23. [getUniqueSources] returns the non-empty values of
    [source || publisher] over the articles, and only those, each once,
    in the ascending order of their UTF-16 code units: of two of them
    the earlier one is the smaller at the first code unit where they
    differ, or is a proper prefix of the later one. *)
Theorem unique_sources_sorted_and_distinct (articles : list Item) :
  let sources := getUniqueSources articles in
  (forall s, s ∈ sources <->
     nonempty s = true /\
     exists item, item ∈ articles /\
       or_else (source item) (publisher item) = Some s) /\
  NoDup sources /\
  (forall i j a b, sources !! i = Some a -> sources !! j = Some b ->
     (i < j)%nat ->
     a ≠ b /\ JsUtf16.le a b = true /\
     (JsUtf16.le b a = true -> JsUtf16.codeUnits a = JsUtf16.codeUnits b)).
Proof.
  intros sources. subst sources. unfold getUniqueSources.
  set (values := omap sourceOf articles).
  assert (Hperm : merge_sort stringLe (distinct [] values) ≡ₚ distinct [] values)
    by apply merge_sort_Permutation.
  assert (Hnodup : NoDup (merge_sort stringLe (distinct [] values))).
  { rewrite Hperm. apply NoDup_distinct. }
  split; [|split; [done|]].
  - intros s. rewrite Hperm, elem_of_distinct. subst values.
    rewrite list_elem_of_omap. split.
    + intros [(item & Hitem & Hs) _]. apply sourceOf_Some in Hs as [Hn Hs]. eauto.
    + intros (Hn & item & Hitem & Hs). split; [|by intros ?%elem_of_nil].
      exists item. split; [done|]. by apply sourceOf_Some.
  - intros i j a b Hi Hj Hlt.
    pose proof (@StronglySorted_merge_sort _ stringLe _ stringLe_trans
                  stringLe_total (distinct [] values)) as Hsorted.
    assert (Hle : stringLe a b).
    { by eapply (StronglySorted_lookup stringLe). }
    split; [| split; [exact Hle |]].
    + intros ->. pose proof (NoDup_lookup _ _ _ _ Hnodup Hi Hj). lia.
    + intros Hge. by apply lexLe_antisym.
Qed.

End SourcesFacts.

(** ** Structured logging *)

Module LoggingFacts.

Import Logging LoggingSamples.

Section Log.

Variable LOG_TO_FILE : bool.
Variable stringifyEntry : Level -> string -> string -> option string -> string.

Lemma logAll_app (calls later : list LogCall) (n : Z) :
  logAll LOG_TO_FILE stringifyEntry (calls ++ later) n =
  let first := logAll LOG_TO_FILE stringifyEntry calls n in
  let second := logAll LOG_TO_FILE stringifyEntry later first.1 in
  (second.1, first.2 ++ second.2).
Proof.
  cbn zeta. revert n. induction calls as [|c calls IH]; intros n.
  - cbn. by destruct (logAll LOG_TO_FILE stringifyEntry later n).
  - cbn [app logAll fst snd]. by rewrite IH.
Qed.

Lemma logAll_length (calls : list LogCall) (n : Z) :
  length (logAll LOG_TO_FILE stringifyEntry calls n).2 = length calls.
Proof.
  revert n. induction calls as [|c calls IH]; intros n; [done |].
  cbn [logAll snd length]. by rewrite IH.
Qed.

Lemma log_disabled (timestamp : string) (disk : Disk) (n : Z) (level : Level)
    (message : string) (context : option string) :
  MAX_LOG_FILE_FAILURES <= n ->
  log LOG_TO_FILE stringifyEntry timestamp disk n level message context =
  (n, {| console := [(consoleMethod level,
                      stringifyEntry level message timestamp context)];
         appended := None |}).
Proof.
  intros Hn. unfold log.
  destruct (n <? MAX_LOG_FILE_FAILURES) eqn:Hlt; [apply Z.ltb_lt in Hlt; lia |].
  by rewrite andb_false_r.
Qed.

Lemma logAll_disabled (calls : list LogCall) (n : Z) :
  MAX_LOG_FILE_FAILURES <= n ->
  (logAll LOG_TO_FILE stringifyEntry calls n).1 = n /\
  Forall (fun o => appended o = None /\ length (console o) = 1%nat)
         (logAll LOG_TO_FILE stringifyEntry calls n).2.
Proof.
  intros Hn. induction calls as [|c calls [IH1 IH2]]; [by split |].
  cbn [logAll fst snd]. rewrite log_disabled by done. cbn [fst snd].
  split; [done |]. by constructor.
Qed.

Lemma log_refused (timestamp reason : string) (n : Z) (level : Level)
    (message : string) (context : option string) :
  LOG_TO_FILE = true -> n < MAX_LOG_FILE_FAILURES ->
  let r := log LOG_TO_FILE stringifyEntry timestamp (Refuses reason) n
               level message context in
  r.1 = n + 1 /\ appended r.2 = None.
Proof.
  intros -> Hn. cbn zeta. unfold log.
  apply Z.ltb_lt in Hn. by rewrite Hn.
Qed.

Lemma logAll_streak (streak : list LogCall) (n : Z) :
  LOG_TO_FILE = true -> Forall refused streak ->
  0 <= n <= MAX_LOG_FILE_FAILURES ->
  (logAll LOG_TO_FILE stringifyEntry streak n).1
    = Z.min MAX_LOG_FILE_FAILURES (n + Z.of_nat (length streak)) /\
  Forall (fun o => appended o = None)
         (logAll LOG_TO_FILE stringifyEntry streak n).2.
Proof.
  intros Hfile Hstreak. revert n.
  induction Hstreak as [|c streak [reason Hc] _ IH]; intros n Hn.
  - cbn. split; [lia | constructor].
  - cbn [logAll fst snd length]. rewrite Hc.
    destruct (decide (n < MAX_LOG_FILE_FAILURES)) as [Hlt|Hge].
    + destruct (log_refused (call_timestamp c) reason n (call_level c)
                  (call_message c) (call_context c) Hfile Hlt) as [-> Happ].
      destruct (IH (n + 1)) as [-> Hrest]; [lia |].
      split; [lia |]. by constructor.
    + rewrite log_disabled by lia. cbn [fst snd].
      destruct (IH n Hn) as [-> Hrest]. split; [lia |]. by constructor.
Qed.

(** X24. Five failures in a row end file logging for good: from a
    failure count within range, once a streak of calls at which the
    log file cannot be written has brought the count to five, the
    count stays at five and no later call appends to the file or prints
    a notice about it, even when the file could be written again. *)
Theorem five_failures_in_a_row_end_file_logging
    (streak later : list LogCall) (n : Z) :
  LOG_TO_FILE = true ->
  0 <= n <= MAX_LOG_FILE_FAILURES ->
  Forall refused streak ->
  MAX_LOG_FILE_FAILURES <= n + Z.of_nat (length streak) ->
  let r := logAll LOG_TO_FILE stringifyEntry (streak ++ later) n in
  r.1 = MAX_LOG_FILE_FAILURES /\
  Forall (fun o => appended o = None) r.2 /\
  Forall (fun o => length (console o) = 1%nat) (drop (length streak) r.2).
Proof.
  intros Hfile Hn Hstreak Hreach. cbn zeta.
  rewrite logAll_app. cbn [fst snd].
  destruct (logAll_streak streak n Hfile Hstreak Hn) as [Hcount Hnone].
  assert ((logAll LOG_TO_FILE stringifyEntry streak n).1 = MAX_LOG_FILE_FAILURES)
    as Hmax by lia.
  rewrite Hmax.
  destruct (logAll_disabled later MAX_LOG_FILE_FAILURES) as [-> Hlater]; [lia |].
  split; [done |]. split.
  - apply Forall_app. split; [done |].
    eapply Forall_impl; [exact Hlater |]. by intros o [? _].
  - rewrite <- (logAll_length streak n), drop_app_length.
    eapply Forall_impl; [exact Hlater |]. by intros o [_ ?].
Qed.

Lemma log_range (timestamp : string) (disk : Disk) (n : Z) (level : Level)
    (message : string) (context : option string) :
  0 <= n <= MAX_LOG_FILE_FAILURES ->
  0 <= (log LOG_TO_FILE stringifyEntry timestamp disk n level message context).1
    <= MAX_LOG_FILE_FAILURES.
Proof.
  intros Hn. unfold log.
  destruct LOG_TO_FILE; cbn [andb fst]; [|done].
  destruct (n <? MAX_LOG_FILE_FAILURES) eqn:Hlt; [|done].
  apply Z.ltb_lt in Hlt.
  destruct disk; cbn [fst]; [|lia].
  destruct (0 <? n); lia.
Qed.

Lemma log_off (timestamp : string) (disk : Disk) (n : Z) (level : Level)
    (message : string) (context : option string) :
  LOG_TO_FILE = false ->
  log LOG_TO_FILE stringifyEntry timestamp disk n level message context =
  (n, {| console := [(consoleMethod level,
                      stringifyEntry level message timestamp context)];
         appended := None |}).
Proof. intros Hfile. unfold log. by rewrite Hfile. Qed.

(** X25. The failure count of the logger stays between zero and five
    over any series of calls; with [LOG_TO_FILE] off, it does not move
    and nothing is appended to the file. *)
Theorem failure_count_stays_in_range (calls : list LogCall) (n : Z) :
  0 <= n <= MAX_LOG_FILE_FAILURES ->
  0 <= (logAll LOG_TO_FILE stringifyEntry calls n).1 <= MAX_LOG_FILE_FAILURES /\
  (LOG_TO_FILE = false ->
   (logAll LOG_TO_FILE stringifyEntry calls n).1 = n /\
   Forall (fun o => appended o = None)
          (logAll LOG_TO_FILE stringifyEntry calls n).2).
Proof.
  revert n. induction calls as [|c calls IH]; intros n Hn.
  - split; [done |]. intros _. split; [done | constructor].
  - cbn [logAll fst snd].
    pose proof (log_range (call_timestamp c) (call_disk c) n (call_level c)
                  (call_message c) (call_context c) Hn) as Hstep.
    destruct (IH _ Hstep) as [Hrange Hoff]. split; [done |].
    intros Hfile. destruct (Hoff Hfile) as [Hcount Hnone].
    rewrite (log_off _ _ _ _ _ _ Hfile) in *. cbn [fst snd] in *.
    split; [done |]. by constructor.
Qed.

End Log.

Lemma five_failures_in_a_row_end_file_logging_witness :
  (logAll true entryText (replicate 5 diskFull ++ [diskBack]) 0).1
    = MAX_LOG_FILE_FAILURES /\
  Forall (fun o => appended o = None)
         (logAll true entryText (replicate 5 diskFull ++ [diskBack]) 0).2.
Proof.
  destruct (five_failures_in_a_row_end_file_logging true entryText
              (replicate 5 diskFull) [diskBack] 0) as (Hcount & Hnone & _).
  - reflexivity.
  - unfold MAX_LOG_FILE_FAILURES. lia.
  - repeat (apply List.Forall_cons; [by eexists |]). apply List.Forall_nil.
  - cbn. unfold MAX_LOG_FILE_FAILURES. lia.
  - split; [exact Hcount | exact Hnone].
Defined.

Lemma failure_count_stays_in_range_witness :
  0 <= (logAll true entryText [diskFull; diskBack; diskFull] 0).1
    <= MAX_LOG_FILE_FAILURES.
Proof.
  apply (failure_count_stays_in_range true entryText
           [diskFull; diskBack; diskFull] 0).
  unfold MAX_LOG_FILE_FAILURES. lia.
Defined.

End LoggingFacts.

(** ** Article filter of the front end *)

Module FilterFacts.

Import Filter FilterSamples.

Section Browser.

Variable now : Z.
Variable parseInt : string -> option Z.
Variable dateParse : string -> option Z.
Variable arraySort : (Shown -> Shown -> option Z) -> list Shown -> list Shown.

(** [Array.prototype.sort] rearranges the array, whatever the
    comparator yields. *)
Hypothesis arraySort_Permutation : forall cmp l, arraySort cmp l ≡ₚ l.

Lemma filter_keeps_sublist (keep : Shown -> bool) (l : list Shown) :
  sublist (List.filter keep l) l.
Proof.
  induction l as [|x l IH]; [done |]. cbn [List.filter].
  destruct (keep x); by constructor.
Qed.

Lemma narrow_sublist (criterion : option string)
    (keep : string -> Shown -> bool) (l : list Shown) :
  sublist (narrow criterion keep l) l.
Proof.
  unfold narrow. destruct criterion as [c|]; [|done].
  destruct (nonempty c); [apply filter_keeps_sublist | done].
Qed.

Lemma elem_of_narrow (criterion : option string)
    (keep : string -> Shown -> bool) (l : list Shown) (it : Shown) :
  it ∈ narrow criterion keep l <->
  it ∈ l /\ forall c, criterion = Some c -> nonempty c = true -> keep c it = true.
Proof.
  unfold narrow. destruct criterion as [c|].
  - destruct (nonempty c) eqn:Hc.
    + rewrite !list_elem_of_In, filter_In. split.
      * intros [Hin Hkeep]. split; [done |]. by intros c' [= <-] _.
      * intros [Hin Hkeep]. split; [done |]. by apply Hkeep.
    + split; [|by intros [? _]]. intros Hin. split; [done |].
      intros c' [= <-]. congruence.
  - split; [|by intros [? _]]. intros Hin. by split.
Qed.

Lemma filterArticles_Permutation (items : list Shown) (c : Criteria) :
  filterArticles now parseInt dateParse arraySort items c
  ≡ₚ filtered now parseInt dateParse items c.
Proof.
  unfold filterArticles. cbn zeta.
  destruct (bool_decide _); apply arraySort_Permutation.
Qed.

Lemma elem_of_filtered_timeframe (items : list Shown) (c : Criteria)
    (days : string) (it : Shown) :
  timeframe c = Some days -> nonempty days = true ->
  it ∈ filtered now parseInt dateParse items c ->
  inTimeframe now parseInt dateParse days it = true.
Proof.
  intros Hdays Hnonempty. unfold filtered. cbn zeta. rewrite !elem_of_narrow.
  intros [[[[[_ Htime] _] _] _] _]. by apply Htime.
Qed.

(** X26. [filterArticles] shows no article more often than it was
    given, and never one of the categories ['not relevant'],
    ['excluded'] and ['blacklisted'], whatever the criteria; without
    any criterion it shows exactly the articles of the other
    categories. *)
Theorem excluded_categories_never_shown (items : list Shown) (c : Criteria) :
  filterArticles now parseInt dateParse arraySort items c ⊆+ items /\
  (forall it,
     it ∈ filterArticles now parseInt dateParse arraySort items c ->
     category it ≠ Some "not relevant" /\ category it ≠ Some "excluded" /\
     category it ≠ Some "blacklisted") /\
  (timeframe c = None -> query c = None -> region c = None ->
   by_category c = None -> by_source c = None ->
   filterArticles now parseInt dateParse arraySort items c
   ≡ₚ List.filter notExcluded items).
Proof.
  pose proof (filterArticles_Permutation items c) as Hperm.
  split; [|split].
  - rewrite Hperm. apply sublist_submseteq. unfold filtered. cbn zeta.
    repeat (etrans; [apply narrow_sublist |]). apply filter_keeps_sublist.
  - intros it. rewrite Hperm. unfold filtered. cbn zeta. rewrite !elem_of_narrow.
    intros [[[[[Hin _] _] _] _] _].
    apply list_elem_of_In, filter_In in Hin as [_ Hshown].
    unfold notExcluded in Hshown.
    apply andb_true_iff in Hshown as [[H1 H2]%andb_true_iff H3].
    apply negb_true_iff, bool_decide_eq_false in H1, H2, H3. done.
  - intros H1 H2 H3 H4 H5. rewrite Hperm. unfold filtered.
    by rewrite H1, H2, H3, H4, H5.
Qed.

(** X27. With a time frame, [filterArticles] shows only articles whose
    date can be read and lies no earlier than that many days before
    now; an article without [pubDate] and [fetchedAt] counts as dated
    1 January 1970.  A time frame that is no number, such as ['all'],
    shows nothing. *)
Theorem timeframe_needs_dates (items : list Shown) (c : Criteria)
    (days : string) :
  timeframe c = Some days -> nonempty days = true ->
  (forall it,
     it ∈ filterArticles now parseInt dateParse arraySort items c ->
     exists daysAgo t,
       parseInt days = Some daysAgo /\ timeOf dateParse it = Some t /\
       now - daysAgo * 86400000 <= t) /\
  (forall it,
     it ∈ filterArticles now parseInt dateParse arraySort items c ->
     truthy (or_else (pubDate it) (fetchedAt it)) = false ->
     exists daysAgo, parseInt days = Some daysAgo /\ now <= daysAgo * 86400000) /\
  (parseInt days = None ->
   filterArticles now parseInt dateParse arraySort items c = []).
Proof.
  intros Hdays Hnonempty.
  pose proof (filterArticles_Permutation items c) as Hperm.
  pose proof (elem_of_filtered_timeframe items c days) as Hin.
  assert (forall it,
    it ∈ filterArticles now parseInt dateParse arraySort items c ->
    exists daysAgo t,
      parseInt days = Some daysAgo /\ timeOf dateParse it = Some t /\
      now - daysAgo * 86400000 <= t) as Hdated.
  { intros it. rewrite Hperm. intros Hit. apply Hin in Hit; [|done..].
    unfold inTimeframe, cutoffDate in Hit.
    destruct (timeOf dateParse it) as [t|]; [|done].
    destruct (parseInt days) as [daysAgo|]; [|done].
    unfold timeClip in Hit. destruct (Z.abs _ <=? _); [|done].
    exists daysAgo, t. split; [done |]. split; [done |].
    apply Z.leb_le in Hit. lia. }
  split; [exact Hdated |]. split.
  - intros it Hit Hundated.
    destruct (Hdated it Hit) as (daysAgo & t & Hparse & Htime & Hle).
    exists daysAgo. split; [done |].
    unfold timeOf in Htime. unfold truthy in Hundated.
    destruct (or_else (pubDate it) (fetchedAt it)) as [s|].
    + rewrite Hundated in Htime. injection Htime as <-. lia.
    + injection Htime as <-. lia.
  - intros Hnan. apply Permutation_nil_r. rewrite Hperm.
    destruct (filtered now parseInt dateParse items c) as [|it l']; [done |].
    exfalso.
    assert (inTimeframe now parseInt dateParse days it = true) as Hit
      by (apply Hin; [done..|]; by left).
    unfold inTimeframe, cutoffDate in Hit. rewrite Hnan in Hit.
    by destruct (timeOf dateParse it).
Qed.

End Browser.

Lemma sortBy_Permutation (cmp : Shown -> Shown -> option Z) (l : list Shown) :
  sortBy cmp l ≡ₚ l.
Proof. apply merge_sort_Permutation. Qed.

Lemma excluded_categories_never_shown_witness :
  filterArticles 864000000 days dayNumber sortBy [old; hidden; recent] noCriteria
  ⊆+ [old; hidden; recent].
Proof.
  exact (proj1 (excluded_categories_never_shown 864000000 days dayNumber sortBy
                  sortBy_Permutation [old; hidden; recent] noCriteria)).
Defined.

Lemma timeframe_needs_dates_witness :
  days "all" = None /\
  filterArticles 864000000 days dayNumber sortBy [old; recent] allTime = [].
Proof.
  split; [reflexivity |].
  exact (proj2 (proj2 (timeframe_needs_dates 864000000 days dayNumber sortBy
                         sortBy_Permutation [old; recent] allTime "all"
                         eq_refl eq_refl)) eq_refl).
Defined.

End FilterFacts.
